(** * RepoMonitor: the GitHub client and the dashboard's open-issues aggregation

    A shallow embedding of [src/lib/github.ts] (the rate-limited client) and
    of the two aggregation runs of [src/pages/Dashboard.tsx] ([fetchStats]
    inside the initial effect and [refreshStats.openIssues]), together with
    the properties the specification states about them.

    Conventions.
    - JavaScript numbers that hold counts are integers here ([Z]); HTTP status
      codes too.
    - A JavaScript [Error] is a value of the inductive type [Error], one
      constructor per [throw] site of the sources.
    - Side effects are threaded explicitly: a computation takes a state and
      returns a result together with the new state.  Awaited calls into code
      that is not part of the two files (the database client, [withGitHub],
      [fetch]) take their answers from the environment. *)

From stdpp Require Import gmap strings list pretty.

#[local] Open Scope string_scope.
#[local] Open Scope Z_scope.

(** ** Errors *)

Inductive Error : Type :=
| TokenInvalid                              (* new Error('GitHub token is invalid or expired') *)
| RateLimitExceeded                         (* new Error('rate limit exceeded') *)
| ApiError (status : Z) (statusText : string) (* new Error(`GitHub API error: ...`) *)
| TypeError (what : string)                 (* a member access on undefined *)
| SyntaxError (message : string)            (* response.json() on a malformed body *)
| NetworkError                              (* fetch rejected *)
| OtherError (message : string)             (* any other Error object *)
| NonError (value : string).                (* a thrown value that is not an Error object *)

Global Instance Error_eq_dec : EqDecision Error.
Proof. solve_decision. Defined.

(** [error.message] *)
Definition message (e : Error) : string :=
  match e with
  | TokenInvalid => "GitHub token is invalid or expired"
  | RateLimitExceeded => "rate limit exceeded"
  | ApiError status statusText =>
      "GitHub API error: " +:+ pretty status +:+ " " +:+ statusText
  | TypeError what => "Cannot read properties of undefined (reading '" +:+ what +:+ "')"
  | SyntaxError m => m
  | NetworkError => "Failed to fetch"
  | OtherError m => m
  | NonError _ => ""                       (* [undefined]; never read, see [instanceofError] *)
  end.

(** [error instanceof Error] *)
Definition instanceofError (e : Error) : bool :=
  match e with
  | NonError _ => false
  | _ => true
  end.

(** [s.includes(sub)] *)
Definition includes (sub s : string) : bool :=
  bool_decide (is_Some (String.index 0 sub s)).

(** ** Computations of the client: state and exceptions

    [C S A] is a computation over a state [S] that returns an [A] or throws.
    A thrown error keeps the state reached at the [throw] (JavaScript does not
    roll anything back). *)

Definition C (S A : Type) : Type := S → (Error + A) * S.

Module CM.
Definition ret {S A} (a : A) : C S A := λ s, (inr a, s).
Definition throw {S A} (e : Error) : C S A := λ s, (inl e, s).
Definition bind {S A B} (m : C S A) (k : A → C S B) : C S B :=
  λ s, match m s with
       | (inr a, s') => k a s'
       | (inl e, s') => (inl e, s')
       end.
(* try { m } catch (error) { h error } *)
Definition catch {S A} (m : C S A) (h : Error → C S A) : C S A :=
  λ s, match m s with
       | (inr a, s') => (inr a, s')
       | (inl e, s') => h e s'
       end.
Definition modify {S} (f : S → S) : C S unit := λ s, (inr tt, f s).
Definition gets {S A} (f : S → A) : C S A := λ s, (inr (f s), s).
End CM.

Declare Scope client_scope.
Delimit Scope client_scope with client.
Notation "'let!' x ':=' m 'in' k" := (CM.bind m (λ x, k))
  (at level 10, x name, m at level 100, k at level 200) : client_scope.

(** [x || d] on a number that may be [null], [undefined] or [0]. *)
Definition or_default (x : option Z) (d : Z) : Z :=
  match x with
  | Some n => if bool_decide (n = 0) then d else n
  | None => d
  end.

(** ** [src/lib/github.ts] *)

Module GitHub.
Section Client.
Local Open Scope client_scope.
(** The parsed JSON bodies are opaque to the client: [request<T>] casts
    whatever [response.json()] yields. *)
Context {Json : Type}.
(** [new URLSearchParams({...}).toString()], a platform function. *)
Variable URLSearchParams : list (string * string) → string.

Record Response : Type := mkResponse {
  status : Z;
  statusText : string;
  ratelimitRemaining : option string;   (* headers.get('x-ratelimit-remaining') *)
  body : string + Json                  (* inl m: response.json() rejects, message m *)
}.

(** [response.ok] of the Fetch API: the status is in the range 200-299. *)
Definition ok (r : Response) : bool := bool_decide (200 ≤ status r ≤ 299).

(** What the module does to the outside world, in order. *)
Inductive Event : Type :=
| ConsoleLog (label : string) (args : list string)
| ConsoleError (label : string) (e : Error)
| NewRateLimiter (ref : nat) (tokensPerInterval : Z) (interval : string)
| RemoveTokens (limiter : nat) (count : Z)
| Fetch (url : string) (authorization : string)
| ClearToken
| Navigate (path : string).

Global Instance Event_eq_dec : EqDecision Event.
Proof. solve_decision. Defined.

(** The module-level state.  [userLimiters] is the module's
    [Map<string, RateLimiter>]; a [RateLimiter] object is known by its
    reference, the number of limiters created before it.  [network] is the
    remote API: the response to a URL, [None] when [fetch] rejects. *)
Record State : Type := mkState {
  userLimiters : gmap string nat;
  created : nat;
  credential : option string;
  network : string → option Response;
  events : list Event
}.

Definition emit (e : Event) : C State unit :=
  CM.modify (λ s, mkState (userLimiters s) (created s) (credential s)
                          (network s) (events s ++ [e])).

(** Modelled from the spec: [GitHubTokenManager.clearToken] lives in
    [lib/auth/github-token-manager], which is not among the sources; the
    specification says that it clears the cached credential. *)
Definition clearToken : C State unit :=
  CM.modify (λ s, mkState (userLimiters s) (created s) None
                          (network s) (events s ++ [ClearToken])).

Record GitHubClientImpl : Type := mkClient {
  token : string;
  limiter : option nat   (* the type is erased at run time: get(userId)! may be undefined *)
}.

(** [constructor(token, userId)] *)
Definition constructor (token : string) (userId : string)
  : C State GitHubClientImpl :=
   let! has := CM.gets (λ s, bool_decide (is_Some (userLimiters s !! userId))) in
   let! _ := (if negb has
              then let! ref := CM.gets created in
                   let! _ := CM.modify (λ s,
                               mkState (<[userId := ref]> (userLimiters s))
                                       (S (created s)) (credential s)
                                       (network s) (events s)) in
                   emit (NewRateLimiter ref 5000 "hour")
              else CM.ret tt) in
   let! l := CM.gets (λ s, userLimiters s !! userId) in
   CM.ret (mkClient token l).

(** [await this.limiter.removeTokens(1)] *)
Definition removeTokens (this : GitHubClientImpl) (count : Z) : C State unit :=
  match limiter this with
  | Some l => emit (RemoveTokens l count)
  | None => CM.throw (TypeError "removeTokens")
  end.

(** [await fetch(url, { headers: { Authorization: `Bearer ${token}` } })] *)
Definition fetch (url : string) (bearer : string) : C State Response :=
   let! _ := emit (Fetch url ("Bearer " +:+ bearer)) in
   let! r := CM.gets (λ s, network s url) in
   match r with
   | Some response => CM.ret response
   | None => CM.throw NetworkError
   end.

(** [response.json()] *)
Definition json (response : Response) : C State Json :=
  match body response with
  | inr j => CM.ret j
  | inl m => CM.throw (SyntaxError m)
  end.

(** [request<T>(path, options = {})]; every caller passes the path alone. *)
Definition request (this : GitHubClientImpl) (path : string) : C State Json :=
   let! _ := emit (ConsoleLog "Making GitHub API request:" [path]) in
   (* Wait for rate limit *)
   let! _ := removeTokens this 1 in
   let! response := fetch ("https://api.github.com" +:+ path) (token this) in
   if negb (ok response) then
     if bool_decide (status response = 401) then
       (* Token is invalid or expired *)
       let! _ := clearToken in
       CM.throw TokenInvalid
     else if bool_decide (status response = 403)
             && bool_decide (ratelimitRemaining response = Some "0") then
       CM.throw RateLimitExceeded
     else
       CM.throw (ApiError (status response) (statusText response))
   else json response.

(** [static create(userId)]; [tok] is what [await GitHubTokenManager.getToken()]
    yields (the token manager is not among the sources). *)
Definition create (tok : Error + string) (userId : string)
  : C State GitHubClientImpl :=
  CM.catch
    (match tok with
     | inr token => constructor token userId
     | inl e => CM.throw e
     end)
    (λ error,
      let! _ := emit (ConsoleError "[GitHubClient] Failed to create client:" error) in
      (* Clear token and redirect to auth *)
      let! _ := clearToken in
      let! _ := emit (Navigate "/auth/callback") in
      CM.throw error).

Definition getRepository (this : GitHubClientImpl) (owner repo : string)
  : C State Json :=
   let! _ := emit (ConsoleLog "Fetching repository:" [owner; repo]) in
   request this ("/repos/" +:+ owner +:+ "/" +:+ repo).

Record SearchOptions : Type := mkSearchOptions {
  page : option Z;
  per_page : option Z;
  sort : option string;
  order : option string
}.

Definition searchRepositories (this : GitHubClientImpl) (query : string)
    (options : SearchOptions) : C State Json :=
   let! _ := emit (ConsoleLog "Searching repositories:" [query]) in
   let params := URLSearchParams
     [("q", query);
      ("page", pretty (or_default (page options) 1));
      ("per_page", pretty (or_default (per_page options) 10));
      ("sort", default "stars" (sort options));
      ("order", default "desc" (order options))] in
   request this ("/search/repositories?" +:+ params).

Definition listRepositories (this : GitHubClientImpl) : C State Json :=
  let params := URLSearchParams
    [("type", "all"); ("sort", "created"); ("direction", "asc");
     ("per_page", "100"); ("page", "1")] in
  request this ("/user/repos?" +:+ params).

Record IssueOptions : Type := mkIssueOptions {
  state : option string;
  issues_per_page : option Z;
  issues_page : option Z
}.

Definition listRepositoryIssues (this : GitHubClientImpl) (owner repo : string)
    (options : IssueOptions) : C State Json :=
  let params := URLSearchParams
    [("state", default "open" (state options));
     ("per_page", pretty (or_default (issues_per_page options) 100));
     ("page", pretty (or_default (issues_page options) 1))] in
  request this ("/repos/" +:+ owner +:+ "/" +:+ repo +:+ "/issues?" +:+ params).

(** [getGitHubClient(userId)] *)
Definition getGitHubClient (tok : Error + string) (userId : string)
  : C State GitHubClientImpl := create tok userId.

(** The module-level function [getRepository(owner, repo)], which does not
    go through a client.  Line 199 is [return response.json()] without
    [await]: the [try] block is left with the pending promise, so a rejection
    of [json()] is not caught by the [catch] of lines 200-208. *)
Definition getRepositoryDirect (tok : Error + string) (owner repo : string)
  : C State Json :=
  let! response :=
    CM.catch
      (let! token := (match tok with
                      | inr t => CM.ret t
                      | inl e => CM.throw e
                      end) in
       let! response := fetch ("https://api.github.com/repos/" +:+ owner +:+ "/" +:+ repo)
                              token in
       if negb (ok response) then
         if bool_decide (status response = 401) then
           let! _ := clearToken in
           CM.throw TokenInvalid
         else CM.throw (ApiError (status response) (statusText response))
       else CM.ret response)
      (λ error,
        let! _ := emit (ConsoleError "[getRepository] Error:" error) in
        let! _ := (if instanceofError error && includes "token" (message error)
                   (* Redirect to auth if token is invalid *)
                   then emit (Navigate "/auth/callback")
                   else CM.ret tt) in
        CM.throw error) in
  json response.

(** The methods of the [GitHubClient] interface, and a call of one of them. *)
Inductive Method : Type :=
| GetRepository (owner repo : string)
| SearchRepositories (query : string) (options : SearchOptions)
| ListRepositories
| ListRepositoryIssues (owner repo : string) (options : IssueOptions).

Definition invoke (this : GitHubClientImpl) (m : Method) : C State Json :=
  match m with
  | GetRepository owner repo => getRepository this owner repo
  | SearchRepositories query options => searchRepositories this query options
  | ListRepositories => listRepositories this
  | ListRepositoryIssues owner repo options => listRepositoryIssues this owner repo options
  end.

(** Everything a user of the module can do with it. *)
Inductive Call : Type :=
| Construct (tok : Error + string) (userId : string)
| Invoke (this : GitHubClientImpl) (m : Method)
| Direct (tok : Error + string) (owner repo : string).

(** The state after a call. *)
Definition perform (s : State) (c : Call) : State :=
  match c with
  | Construct tok userId => (getGitHubClient tok userId s).2
  | Invoke this m => (invoke this m s).2
  | Direct tok owner repo => (getRepositoryDirect tok owner repo s).2
  end.

(** The events recorded between [s] and [s']. *)
Definition newEvents (s s' : State) : list Event :=
  drop (length (events s)) (events s').

(** The token withdrawals ([inl (limiter, count)]) and the network calls
    ([inr url]) among some events, in order. *)
Definition traffic (evs : list Event) : list (nat * Z + string) :=
  omap (λ e, match e with
             | RemoveTokens l n => Some (inl (l, n))
             | Fetch url _ => Some (inr url)
             | _ => None
             end) evs.

(** What [request] records after its [fetch], by the answer of the network. *)
Definition requestTail (r : option Response) : list Event :=
  match r with
  | Some response =>
      if negb (ok response) && bool_decide (status response = 401)
      then [ClearToken] else []
  | None => []
  end.

(** How often the cached credential was cleared. *)
Definition clears (evs : list Event) : nat :=
  length (omap (λ e, match e with ClearToken => Some tt | _ => None end) evs).

End Client.
End GitHub.

(** ** [src/pages/Dashboard.tsx] *)

Module Dashboard.

Record DashboardStats : Type := mkStats {
  openIssues : Z;
  trackedRepos : Z;
  analyzedRepos : Z;
  activeAutomations : Z
}.

Global Instance DashboardStats_eq_dec : EqDecision DashboardStats.
Proof. solve_decision. Defined.

(** The initial value of [useState<DashboardStats>]. *)
Definition initialStats : DashboardStats := mkStats 0 0 0 0.

(** A row of the [repositories] table, as selected by ['owner, name']. *)
Record Repo : Type := mkRepo { owner : string; name : string }.

(** [`${repo.owner}/${repo.name}`] *)
Definition repoId (repo : Repo) : string := owner repo +:+ "/" +:+ name repo.

Record Toast : Type := mkToast {
  title : string;
  description : string;
  variant : string
}.

Global Instance Toast_eq_dec : EqDecision Toast.
Proof. solve_decision. Defined.

(** What a run does, in order.  [Slice] records the evaluation of
    [repositories.slice(i, i + batchSize)], that is, the start of a batch;
    [SetTimeout] the suspension [await new Promise(r => setTimeout(r, ms))]. *)
Inductive Event : Type :=
| SetStats (next : DashboardStats)
| SetRefreshing (key : string) (value : bool)
| ShowToast (t : Toast)
| ConsoleError (label : string) (e : Error)
| Slice (start stop : nat)
| SetTimeout (ms : Z).

Global Instance Event_eq_dec : EqDecision Event.
Proof. solve_decision. Defined.

(** *** The state updaters passed to [setStats] *)

(** lines 58-63: [prev => ({...prev, trackedRepos, analyzedRepos, activeAutomations})] *)
Definition withCounts (tracked analyzed automations : option Z)
    (prev : DashboardStats) : DashboardStats :=
  mkStats (openIssues prev) (or_default tracked 0) (or_default analyzed 0)
          (or_default automations 0).

(** lines 108-111 and 254-257: [prev => ({...prev, openIssues: totalOpenIssues})] *)
Definition withOpenIssues (totalOpenIssues : Z) (prev : DashboardStats)
  : DashboardStats :=
  mkStats totalOpenIssues (trackedRepos prev) (analyzedRepos prev)
          (activeAutomations prev).

(** lines 166-170: [prev => ({...prev, trackedRepos, analyzedRepos})] *)
Definition withRepoCounts (tracked analyzed : option Z) (prev : DashboardStats)
  : DashboardStats :=
  mkStats (openIssues prev) (or_default tracked 0) (or_default analyzed 0)
          (activeAutomations prev).

(** lines 193-196: [prev => ({...prev, activeAutomations})] *)
Definition withAutomations (automations : option Z) (prev : DashboardStats)
  : DashboardStats :=
  mkStats (openIssues prev) (trackedRepos prev) (analyzedRepos prev)
          (or_default automations 0).

(** *** The toasts *)

(** lines 113-119 and 259-265 *)
Definition warningToast (failedRepos : list string) : Toast :=
  let failedReposList := String.concat ", " failedRepos in
  mkToast "Warning"
    ("Failed to fetch issues for: " +:+ failedReposList +:+
     ". Try clicking the refresh button on the Open Issues card to get the correct total.")
    "destructive".

Definition loadErrorToast : Toast :=
  mkToast "Error" "Failed to load some dashboard statistics." "destructive".

Definition refreshErrorToast : Toast :=
  mkToast "Error" "Failed to refresh open issues count." "destructive".

(** *** Answers of the database client *)

(** [{ count, error }] of a [select('*', { count: 'exact', head: true })] *)
Record CountResult : Type := mkCount {
  count : option Z;
  countError : option Error
}.

(** [{ data, error }] of [select('owner, name')] *)
Record ReposResult : Type := mkRepos {
  data : option (list Repo);
  dataError : option Error
}.

Record Supabase : Type := mkSupabase {
  trackedQuery : CountResult;       (* from('repositories'), count *)
  analyzedQuery : CountResult;      (* ... gte('last_analysis_timestamp', 30 days ago) *)
  automationsQuery : CountResult;   (* from('analysis_jobs') in queued, processing *)
  repositoriesQuery : ReposResult   (* from('repositories').select('owner, name') *)
}.

(** *** The client as the dashboard sees it *)

Record IssueSearch : Type := mkIssueSearch { total_count : Z }.
Record IssueQuery : Type := mkIssueQuery { state : string; per_page : Z }.

Section Runs.
(** [Σ] is the state of whatever stands behind [withGitHub]: the hook
    [lib/hooks/use-github] is not among the sources, so [withGitHub] is a
    parameter.  It receives the callback and resolves to the callback's
    value, resolves to [null], or rejects. *)
Context {Σ : Type}.

Record GitHubClient : Type := mkGitHubClient {
  searchRepositoryIssues : string → string → IssueQuery → C Σ (option IssueSearch)
}.

Variable withGitHub : ∀ A : Type, (GitHubClient → C Σ A) → C Σ (option A).

(** The owning effect is torn down ([mounted = false]) while the run is
    suspended for the [k]-th time when [teardown = Some k]; never when it
    is [None]. *)
Variable teardown : option nat.

(** [clock] counts the suspensions ([await]) the run has gone through; each
    journal entry carries the clock at which it happened. *)
Record World : Type := mkWorld {
  stats : DashboardStats;
  refreshing : gmap string bool;
  clock : nat;
  journal : list (nat * Event);
  client : Σ
}.

Inductive Res (A : Type) : Type :=
| Ok (a : A)
| Throw (e : Error)
| Diverge.            (* the loop does not terminate *)
Global Arguments Ok {A} a.
Global Arguments Throw {A} e.
Global Arguments Diverge {A}.

Definition M (A : Type) : Type := World → Res A * World.

Definition ret {A} (a : A) : M A := λ w, (Ok a, w).
Definition throw {A} (e : Error) : M A := λ w, (Throw e, w).
Definition diverge {A} : M A := λ w, (Diverge, w).
Definition bind {A B} (m : M A) (k : A → M B) : M B :=
  λ w, match m w with
       | (Ok a, w') => k a w'
       | (Throw e, w') => (Throw e, w')
       | (Diverge, w') => (Diverge, w')
       end.
(** [try { m } catch (error) { h error }] *)
Definition catch {A} (m : M A) (h : Error → M A) : M A :=
  λ w, match m w with
       | (Throw e, w') => h e w'
       | r => r
       end.
(** [try { m } finally { f }] *)
Definition finally {A} (m : M A) (f : M unit) : M A :=
  λ w, match m w with
       | (Ok a, w') => bind f (λ _, ret a) w'
       | (Throw e, w') => bind f (λ _, throw e) w'
       | (Diverge, w') => (Diverge, w')
       end.

Definition emit (e : Event) : M unit :=
  λ w, (Ok tt, mkWorld (stats w) (refreshing w) (clock w)
                       (journal w ++ [(clock w, e)]) (client w)).

(** [await m]: the run is suspended until [m] settles. *)
Definition await {A} (m : M A) : M A :=
  λ w, let '(r, w') := m w in
       (r, mkWorld (stats w') (refreshing w') (S (clock w')) (journal w') (client w')).

(** A computation of the client, run on the [client] part of the world. *)
Definition liftC {A} (c : C Σ A) : M A :=
  λ w, let '(r, σ) := c (client w) in
       let w' := mkWorld (stats w) (refreshing w) (clock w) (journal w) σ in
       match r with
       | inr a => (Ok a, w')
       | inl e => (Throw e, w')
       end.

(** Reading the local [mounted] of the effect. *)
Definition mounted : M bool :=
  λ w, (Ok match teardown with
           | Some k => bool_decide (clock w < k)%nat
           | None => true
           end, w).

(** [setStats(updater)] *)
Definition setStats (updater : DashboardStats → DashboardStats) : M unit :=
  λ w, let next := updater (stats w) in
       (Ok tt, mkWorld next (refreshing w) (clock w)
                       (journal w ++ [(clock w, SetStats next)]) (client w)).

(** [setRefreshing(prev => ({ ...prev, [key]: value }))] *)
Definition setRefreshing (key : string) (value : bool) : M unit :=
  λ w, (Ok tt, mkWorld (stats w) (<[key := value]> (refreshing w)) (clock w)
                       (journal w ++ [(clock w, SetRefreshing key value)]) (client w)).

Definition toast (t : Toast) : M unit := emit (ShowToast t).

(** [await new Promise(resolve => setTimeout(resolve, ms))] *)
Definition sleep (ms : Z) : M unit := await (emit (SetTimeout ms)).

(** [await <query>], then [if (error) throw error] *)
Definition countQuery (q : CountResult) : M (option Z) :=
  bind (await (ret q)) (λ r,
    match countError r with
    | Some e => throw e
    | None => ret (count r)
    end).

Declare Scope run_scope.
Delimit Scope run_scope with run.
Notation "'let!' x ':=' m 'in' k" := (bind m (λ x, k))
  (at level 10, x name, m at level 100, k at level 200) : run_scope.
Local Open Scope run_scope.

(** *** The aggregation loop (lines 74-104 and 219-251) *)

(** The two local accumulators of a run. *)
Record Acc : Type := mkAcc {
  totalOpenIssues : Z;
  failedRepos : list string
}.

(** [l.slice(start, stop)] for [0 <= start <= stop] *)
Definition slice {A} (l : list A) (start stop : nat) : list A :=
  take (stop - start) (drop start l).

(** The callback handed to [withGitHub] (lines 84-90 and 229-236). *)
Definition countOpenIssues (repo : Repo) (client : GitHubClient) : C Σ Z :=
  (let! response := searchRepositoryIssues client (owner repo) (name repo)
                                           (mkIssueQuery "open" 1) in
   CM.ret (or_default (total_count <$> response) 0))%client.

(** The body of [for (const repo of batch)] (lines 83-97 and 228-244).
    The two copies of the loop differ in one statement: the [catch] of
    [refreshStats.openIssues] also logs the error ([verbose = true]). *)
Definition processRepo (verbose : bool) (repo : Repo) (acc : Acc) : M Acc :=
  catch
    (let! count := await (liftC (withGitHub Z (countOpenIssues repo))) in
     match count with
     | Some c => ret (mkAcc (totalOpenIssues acc + c) (failedRepos acc))
     | None => ret acc
     end)
    (λ error,
      let! _ := (if verbose
                 then emit (ConsoleError ("Error fetching issues for " +:+ repoId repo +:+ ":")
                                         error)
                 else ret tt) in
      ret (mkAcc (totalOpenIssues acc) (failedRepos acc ++ [repoId repo]))).

Fixpoint processBatch (verbose : bool) (batch : list Repo) (acc : Acc) : M Acc :=
  match batch with
  | [] => ret acc
  | repo :: rest =>
      let! acc' := processRepo verbose repo acc in
      processBatch verbose rest acc'
  end.

(** [for (let i = ...; i < repositories.length; i += batchSize) { ... }],
    entered with the current [i].  The recursion is on [fuel], an upper
    bound on the number of iterations; running out of it is [Diverge]. *)
Fixpoint batchLoop (fuel : nat) (verbose : bool) (batchSize : nat)
    (repositories : list Repo) (i : nat) (acc : Acc) : M Acc :=
  if bool_decide (i < length repositories)%nat then
    match fuel with
    | O => diverge
    | S fuel' =>
        let! _ := emit (Slice i (i + batchSize)) in
        let batch := slice repositories i (i + batchSize) in
        let! acc' := processBatch verbose batch acc in
        (* Add delay between batches *)
        let! _ := (if bool_decide (i + batchSize < length repositories)%nat
                   then sleep 1000
                   else ret tt) in
        batchLoop fuel' verbose batchSize repositories (i + batchSize)%nat acc'
    end
  else ret acc.

(** The whole loop, from [i = 0] with empty accumulators.  With a positive
    batch size the loop makes at most [length repositories] iterations. *)
Definition aggregate (verbose : bool) (batchSize : nat) (repositories : list Repo)
  : M Acc :=
  batchLoop (length repositories) verbose batchSize repositories 0 (mkAcc 0 []).

(** Lines 106-120 and 253-266 without the liveness test: the commit of the
    total and the consolidated warning. *)
Definition report (acc : Acc) : M unit :=
  (* Update stats once at the end with final total *)
  let! _ := setStats (withOpenIssues (totalOpenIssues acc)) in
  if bool_decide (0 < length (failedRepos acc))%nat
  then toast (warningToast (failedRepos acc))
  else ret tt.

(** *** [fetchStats] (lines 30-133) *)
Definition fetchStats (sb : Supabase) : M unit :=
  catch
    ((* Get count of tracked repositories *)
     let! trackedRepos := countQuery (trackedQuery sb) in
     (* Get count of repositories analyzed in last 30 days *)
     let! analyzedRepos := countQuery (analyzedQuery sb) in
     (* Get count of active analysis jobs *)
     let! activeAutomations := countQuery (automationsQuery sb) in
     let! alive := mounted in
     let! _ := (if alive
                then setStats (withCounts trackedRepos analyzedRepos activeAutomations)
                else ret tt) in
     (* Get repositories for GitHub issues count *)
     let! r := await (ret (repositoriesQuery sb)) in
     let! _ := (match dataError r with Some e => throw e | None => ret tt end) in
     let! alive := mounted in
     match data r with
     | Some repositories =>
         if alive then
           let! acc := aggregate false 2 repositories in
           let! alive := mounted in
           if alive then report acc else ret tt
         else ret tt
     | None => ret tt
     end)
    (λ error,
      let! _ := emit (ConsoleError "Error fetching dashboard stats:" error) in
      let! alive := mounted in
      if alive then toast loadErrorToast else ret tt).

(** *** [refreshStats.openIssues] (lines 209-278) *)
Definition refreshOpenIssues (sb : Supabase) : M unit :=
  let! _ := setRefreshing "openIssues" true in
  finally
    (catch
       (let! r := await (ret (repositoriesQuery sb)) in
        let! _ := (match dataError r with Some e => throw e | None => ret tt end) in
        match data r with
        | Some repositories =>
            let! acc := aggregate true 2 repositories in
            report acc
        | None => ret tt
        end)
       (λ error,
         let! _ := emit (ConsoleError "Error refreshing open issues:" error) in
         toast refreshErrorToast))
    (setRefreshing "openIssues" false).

(** *** The realtime handlers (lines 151-171 and 185-197) *)
Definition onRepositoriesChange (sb : Supabase) : M unit :=
  let! tracked := await (ret (trackedQuery sb)) in
  let! analyzed := await (ret (analyzedQuery sb)) in
  (* Only update repository-related stats, preserve other stats including openIssues *)
  setStats (withRepoCounts (count tracked) (count analyzed)).

Definition onJobsChange (sb : Supabase) : M unit :=
  let! automations := await (ret (automationsQuery sb)) in
  (* Only update automations count, preserve other stats including openIssues *)
  setStats (withAutomations (count automations)).

(** *** The other refresh handlers (lines 279-342) *)

(** line 287: [prev => ({ ...prev, trackedRepos: count || 0 })] *)
Definition withTrackedRepos (count : option Z) (prev : DashboardStats)
  : DashboardStats :=
  mkStats (openIssues prev) (or_default count 0) (analyzedRepos prev)
          (activeAutomations prev).

(** line 310: [prev => ({ ...prev, analyzedRepos: count || 0 })] *)
Definition withAnalyzedRepos (count : option Z) (prev : DashboardStats)
  : DashboardStats :=
  mkStats (openIssues prev) (trackedRepos prev) (or_default count 0)
          (activeAutomations prev).

Definition trackedErrorToast : Toast :=
  mkToast "Error" "Failed to refresh tracked repositories count." "destructive".

Definition analyzedErrorToast : Toast :=
  mkToast "Error" "Failed to refresh analyzed repositories count." "destructive".

Definition automationsErrorToast : Toast :=
  mkToast "Error" "Failed to refresh active automations count." "destructive".

(** [refreshStats.trackedRepos] (lines 279-298) *)
Definition refreshTrackedRepos (sb : Supabase) : M unit :=
  let! _ := setRefreshing "trackedRepos" true in
  finally
    (catch
       (let! count := countQuery (trackedQuery sb) in
        setStats (withTrackedRepos count))
       (λ error,
         let! _ := emit (ConsoleError "Error refreshing tracked repos:" error) in
         toast trackedErrorToast))
    (setRefreshing "trackedRepos" false).

(** [refreshStats.analyzedRepos] (lines 299-321) *)
Definition refreshAnalyzedRepos (sb : Supabase) : M unit :=
  let! _ := setRefreshing "analyzedRepos" true in
  finally
    (catch
       (let! count := countQuery (analyzedQuery sb) in
        setStats (withAnalyzedRepos count))
       (λ error,
         let! _ := emit (ConsoleError "Error refreshing analyzed repos:" error) in
         toast analyzedErrorToast))
    (setRefreshing "analyzedRepos" false).

(** [refreshStats.activeAutomations] (lines 322-342); its updater is the one
    of the jobs handler. *)
Definition refreshActiveAutomations (sb : Supabase) : M unit :=
  let! _ := setRefreshing "activeAutomations" true in
  finally
    (catch
       (let! count := countQuery (automationsQuery sb) in
        setStats (withAutomations count))
       (λ error,
         let! _ := emit (ConsoleError "Error refreshing active automations:" error) in
         toast automationsErrorToast))
    (setRefreshing "activeAutomations" false).

(** *** The stat cards (lines 345-382) *)

(** One entry of [statCards]; [icon] is the name of the icon component, and
    [cardRefreshing] is [refreshing[key]], which is [undefined] until the
    handler has run once. *)
Record StatCard : Type := mkStatCard {
  cardKey : string;
  cardTitle : string;
  cardValue : string;
  cardDescription : string;
  cardIcon : string;
  onRefresh : M unit;
  cardRefreshing : option bool
}.

(** [statCards], as computed from the state of the component at a render;
    [n.toString()] of an integer is its decimal numeral. *)
Definition statCards (sb : Supabase) (w : World) : list StatCard :=
  [ mkStatCard "openIssues" "Open Issues" (pretty (openIssues (stats w)))
      "Across all tracked repositories" "GitPullRequest"
      (refreshOpenIssues sb) (refreshing w !! "openIssues");
    mkStatCard "trackedRepos" "Tracked Repos" (pretty (trackedRepos (stats w)))
      "Being monitored" "Star"
      (refreshTrackedRepos sb) (refreshing w !! "trackedRepos");
    mkStatCard "analyzedRepos" "Analyzed Repos" (pretty (analyzedRepos (stats w)))
      "In the last 30 days" "Search"
      (refreshAnalyzedRepos sb) (refreshing w !! "analyzedRepos");
    mkStatCard "activeAutomations" "Active Automations"
      (pretty (activeAutomations (stats w)))
      "Currently running" "Settings"
      (refreshActiveAutomations sb) (refreshing w !! "activeAutomations") ].

End Runs.

Arguments GitHubClient : clear implicits.
Arguments World : clear implicits.
Arguments M : clear implicits.
End Dashboard.

(** ** Environments to run the dashboard in *)

(** A scripted [withGitHub]: the state is the list of answers still to be
    given, one per call.  [Reply r] lets the callback's request answer [r],
    [Reject e] lets it throw [e], and [Null] makes [withGitHub] itself
    resolve to [null] without calling the callback. *)
Module Scripted.
Import Dashboard.

Inductive Answer : Type :=
| Reply (response : option IssueSearch)
| Reject (e : Error)
| Null.

Definition scriptedClient : GitHubClient (list Answer) :=
  mkGitHubClient (λ _ _ _ script,
    match script with
    | Reply r :: rest => (inr r, rest)
    | Reject e :: rest => (inl e, rest)
    | Null :: rest => (inl (OtherError "no client"), rest)
    | [] => (inl (OtherError "script exhausted"), [])
    end).

Definition withGitHub (A : Type) (callback : GitHubClient (list Answer) → C (list Answer) A)
  : C (list Answer) (option A) :=
  λ script,
    match script with
    | Null :: rest => (inr None, rest)
    | _ => CM.bind (callback scriptedClient) (λ a, CM.ret (Some a)) script
    end.

(** A count reply. *)
Definition counted (n : Z) : Answer := Reply (Some (mkIssueSearch n)).

Definition world0 (script : list Answer) : World (list Answer) :=
  mkWorld initialStats ∅ 0 [] script.
End Scripted.

(** A [URLSearchParams] for keys and values that need no escaping. *)
Definition plainSearchParams (params : list (string * string)) : string :=
  String.concat "&" ((λ p, p.1 +:+ "=" +:+ p.2) <$> params).

(** [withGitHub] wired to the client of [lib/github.ts]. *)
Module Wired.
Import Dashboard.
Local Open Scope client_scope.

Abbreviation State := (GitHub.State (Json := IssueSearch)).
Abbreviation Response := (GitHub.Response (Json := IssueSearch)).

(** Modelled from the spec: [searchRepositoryIssues] is not a method of the
    [GitHubClientImpl] of [src/lib/github.ts]; according to the specification
    the core issues one GET request per work item, with the query parameters,
    and expects a body with a [total_count].  As every method of the client
    it goes through [request]. *)
Definition issuesPath (owner name : string) (q : IssueQuery) : string :=
  "/search/issues?q=repo:" +:+ owner +:+ "/" +:+ name +:+ "+state:" +:+ state q
  +:+ "&per_page=" +:+ pretty (per_page q).

Definition searchRepositoryIssues (this : GitHub.GitHubClientImpl)
    (owner name : string) (q : IssueQuery) : C State (option IssueSearch) :=
  let! response := GitHub.request this (issuesPath owner name q) in
  CM.ret (Some response).

Definition clientOf (this : GitHub.GitHubClientImpl) : GitHubClient State :=
  mkGitHubClient (searchRepositoryIssues this).

(** Modelled from the spec: [withGitHub] comes from the hook
    [lib/hooks/use-github], which is not among the sources.  This stand-in
    obtains a client for [userId] ([getGitHubClient], with [tok] the answer
    of the token manager) and hands it to the callback; whatever the callback
    throws propagates. *)
Definition withGitHub (tok : Error + string) (userId : string) (A : Type)
    (callback : GitHubClient State → C State A) : C State (option A) :=
  let! this := GitHub.getGitHubClient tok userId in
  let! a := callback (clientOf this) in
  CM.ret (Some a).

Definition okResponse (n : Z) : Response :=
  GitHub.mkResponse 200 "OK" None (inr (mkIssueSearch n)).

Definition errorResponse (status : Z) (statusText : string) : Response :=
  GitHub.mkResponse status statusText None (inl "Unexpected end of JSON input").

(** The URL the callback of the dashboard asks for. *)
Definition issuesUrl (repo : Repo) : string :=
  "https://api.github.com"
  +:+ issuesPath (owner repo) (name repo) (mkIssueQuery "open" 1).

(** A remote API given by the answers for the listed repositories. *)
Definition networkOf (answers : list (Repo * Response)) (url : string)
  : option Response :=
  (λ hit, hit.2.2) <$> list_find (λ a, url = issuesUrl a.1) answers.

Definition world0 (answers : list (Repo * Response)) : World State :=
  mkWorld initialStats ∅ 0 []
          (GitHub.mkState ∅ 0 (Some "t0") (networkOf answers) []).
End Wired.

(** ** Vocabulary of the properties *)

Module Summary.
Import Dashboard.

(** ⌈n / b⌉ *)
Definition ceilDiv (n b : nat) : nat := ((n + b - 1) / b)%nat.

(** *** Reading a journal *)

Definition isBatch (e : Event) : bool :=
  match e with Slice _ _ => true | _ => false end.
Definition isDelay (e : Event) : bool :=
  match e with SetTimeout _ => true | _ => false end.
Definition isCommit (e : Event) : bool :=
  match e with SetStats _ => true | _ => false end.
Definition isToast (e : Event) : bool :=
  match e with ShowToast _ => true | _ => false end.
(** What an observer of the page can see: a state update or a toast. *)
Definition isVisible (e : Event) : bool := isCommit e || isToast e.

(** The events of a journal that satisfy [p], in order. *)
Definition select (p : Event → bool) (j : list (nat * Event)) : list Event :=
  omap (λ x, if p x.2 then Some x.2 else None) j.

(** The toasts shown, in order. *)
Definition toasts (j : list (nat * Event)) : list Toast :=
  omap (λ x, match x.2 with ShowToast t => Some t | _ => None end) j.

(** The batches and delays of a journal, in order: the bounds of each slice,
    and [inr ms] for a delay. *)
Definition pacing (j : list (nat * Event)) : list (nat * nat + Z) :=
  omap (λ x, match x.2 with
             | Slice a b => Some (inl (a, b))
             | SetTimeout ms => Some (inr ms)
             | _ => None
             end) j.

Definition lefts {A B} (l : list (A + B)) : list A :=
  omap (λ x, match x with inl a => Some a | inr _ => None end) l.
Definition rights {A B} (l : list (A + B)) : list B :=
  omap (λ x, match x with inl _ => None | inr b => Some b end) l.

(** A journal without batches, delays, toasts and commits. *)
Definition quiet (j : list (nat * Event)) : Prop :=
  pacing j = [] ∧ toasts j = [] ∧ select isCommit j = [].

(** [sep] between every two consecutive elements of a list. *)
Fixpoint intersperse {A} (sep : A) (l : list A) : list A :=
  match l with
  | [] => []
  | x :: rest =>
      x :: match rest with
           | [] => []
           | _ :: _ => sep :: intersperse sep rest
           end
  end.

(** The pacing the specification asks of a run over [n] items entered at
    index [i] with batch size [b]: the batches [i + k*b, i + k*b + b) for
    [k < ⌈n / b⌉], and one delay between every two consecutive batches. *)
Definition expectedPacing (b n i : nat) : list (nat * nat + Z) :=
  intersperse (inr 1000)
    ((λ k, inl (i + k * b, i + k * b + b)%nat) <$> seq 0 (ceilDiv n b)).

(** The batches and delays of a journal with the clock at which each of them
    starts. *)
Definition timeline (j : list (nat * Event)) : list (nat * (nat * nat + Z)) :=
  omap (λ x, match x.2 with
             | Slice a b => Some (x.1, inl (a, b))
             | SetTimeout ms => Some (x.1, inr ms)
             | _ => None
             end) j.

(** The timeline of [c] batches of size [b] from index [i], the first one
    started at clock [t], when every batch but the last is full and every
    item and every delay suspends the run once: a batch started at [t] is
    followed by its delay at [t + b], and the next batch starts one
    suspension later, at [t + b + 1]. *)
Fixpoint expectedTimeline (c b i t : nat) : list (nat * (nat * nat + Z)) :=
  match c with
  | O => []
  | S c' =>
      (t, inl (i, i + b)%nat)
      :: match c' with
         | O => []
         | S _ => ((t + b)%nat, inr 1000) :: expectedTimeline c' b (i + b) (t + b + 1)
         end
  end.

(** The liveness flag of the effect at clock [t]. *)
Definition aliveAt (teardown : option nat) (t : nat) : bool :=
  match teardown with
  | Some k => bool_decide (t < k)%nat
  | None => true
  end.

(** Every query of a run is answered without an error. *)
Definition healthy (sb : Supabase) : Prop :=
  countError (trackedQuery sb) = None ∧
  countError (analyzedQuery sb) = None ∧
  countError (automationsQuery sb) = None ∧
  dataError (repositoriesQuery sb) = None.

Section Outcomes.
Context {Σ : Type}.
Variable withGitHub : ∀ A : Type, (GitHubClient Σ → C Σ A) → C Σ (option A).

(** What the world has recorded since [w]. *)
Definition since (w w' : World Σ) : list (nat * Event) :=
  drop (length (journal w)) (journal w').

(** How [await withGitHub(...)] settles for one item: rejected with an error,
    resolved to [null], or resolved to a count. *)
Definition Outcome : Type := Error + option Z.

Definition call (repo : Repo) : C Σ (option Z) :=
  withGitHub Z (countOpenIssues repo).

(** The outcomes of the items of a list when they are attempted one after
    the other from the client state [σ]. *)
Fixpoint outcomes (repos : list Repo) (σ : Σ) : list Outcome :=
  match repos with
  | [] => []
  | repo :: rest => let '(o, σ') := call repo σ in o :: outcomes rest σ'
  end.

(** The client state after these attempts. *)
Fixpoint clientAfter (repos : list Repo) (σ : Σ) : Σ :=
  match repos with
  | [] => σ
  | repo :: rest => clientAfter rest (call repo σ).2
  end.

Definition resolvedCount (o : Outcome) : option Z :=
  match o with inr (Some c) => Some c | _ => None end.

Definition rejected (o : Outcome) : bool :=
  match o with inl _ => true | inr _ => false end.

(** The sum of the counts of the items that resolved to a count. *)
Definition sumCounts (os : list Outcome) : Z :=
  foldr Z.add 0 (omap resolvedCount os).

(** The identifiers of the rejected items, in list order. *)
Definition failedIds (repos : list Repo) (os : list Outcome) : list string :=
  omap (λ ro : Repo * Outcome, if rejected ro.2 then Some (repoId ro.1) else None)
       (zip repos os).

(** The accumulators after one item, and after a list of items. *)
Definition tallyStep (acc : Acc) (repo : Repo) (o : Outcome) : Acc :=
  match o with
  | inr (Some c) => mkAcc (totalOpenIssues acc + c) (failedRepos acc)
  | inr None => acc
  | inl _ => mkAcc (totalOpenIssues acc) (failedRepos acc ++ [repoId repo])
  end.

Fixpoint tally (acc : Acc) (repos : list Repo) (os : list Outcome) : Acc :=
  match repos, os with
  | repo :: repos', o :: os' => tally (tallyStep acc repo o) repos' os'
  | _, _ => acc
  end.

(** The accumulators a run over [repos] ends with, from the client state [σ]. *)
Definition result (repos : list Repo) (σ : Σ) : Acc :=
  tally (mkAcc 0 []) repos (outcomes repos σ).

(** What the [catch] of [processRepo] logs at clock [t]. *)
Definition errorLog (verbose : bool) (repo : Repo) (o : Outcome) (t : nat)
  : list (nat * Event) :=
  match o with
  | inl e => if verbose
             then [(t, ConsoleError ("Error fetching issues for " +:+ repoId repo +:+ ":") e)]
             else []
  | inr _ => []
  end.

(** The world one suspension later. *)
Definition tick (w : World Σ) : World Σ :=
  mkWorld (stats w) (refreshing w) (S (clock w)) (journal w) (client w).

(** The warning a run ends with, at clock [t]. *)
Definition warning (t : nat) (acc : Acc) : list (nat * Event) :=
  if bool_decide (0 < length (failedRepos acc))%nat
  then [(t, ShowToast (warningToast (failedRepos acc)))]
  else [].

(** From [w], [m] only extends the journal, and whatever it writes into the
    view state or shows to the user, it does at a clock at which the effect
    is alive. *)
Definition guardedAt (teardown : option nat) {A} (m : M Σ A) (w : World Σ) : Prop :=
  ∃ J : list (nat * Event),
    journal (m w).2 = (journal w ++ J)%list
    ∧ Forall (λ x, isVisible x.2 = true → aliveAt teardown x.1 = true) J.

End Outcomes.
End Summary.

(** ** Example data: the scenarios of the specification *)

Module Examples.
Import Dashboard.

Definition r1 : Repo := mkRepo "a" "r1".
Definition r2 : Repo := mkRepo "a" "r2".
Definition r3 : Repo := mkRepo "a" "r3".
Definition repos3 : list Repo := [r1; r2; r3].

(** Three tracked repositories, two of them analysed, no job running. *)
Definition sb3 : Supabase :=
  mkSupabase (mkCount (Some 3) None) (mkCount (Some 2) None) (mkCount None None)
             (mkRepos (Some repos3) None).

(** Counts 3 and 5, and a transient failure for the second item. *)
Definition transientFailure : list Scripted.Answer :=
  [Scripted.counted 3; Scripted.Reject (ApiError 500 "Internal Server Error");
   Scripted.counted 5].

Definition allSucceed : list Scripted.Answer :=
  [Scripted.counted 3; Scripted.counted 4; Scripted.counted 5].

Definition twoFailures : list Scripted.Answer :=
  [Scripted.Reject (ApiError 500 "Internal Server Error"); Scripted.counted 1;
   Scripted.Reject RateLimitExceeded].

Definition nullInTheMiddle : list Scripted.Answer :=
  [Scripted.counted 3; Scripted.Null; Scripted.counted 5].

(** The second item is answered with a 401. *)
Definition unauthorizedSecond : list (Repo * Wired.Response) :=
  [(r1, Wired.okResponse 3); (r2, Wired.errorResponse 401 "Unauthorized");
   (r3, Wired.okResponse 5)].

(** A registry state: no limiter yet, a cached credential, a silent network. *)
Definition freshState : Wired.State :=
  GitHub.mkState ∅ 0 (Some "t0") (λ _, None) [].
End Examples.

(** ** Vocabulary of the further properties *)

Module Invariants.
Import Dashboard.

Section Registry.
Context {Json : Type}.

(** The registry of limiters is in order: as many limiters were created as
    there are entries, every entry refers to a limiter that was created, and
    no two user ids refer to the same limiter. *)
Definition separated (s : GitHub.State (Json := Json)) : Prop :=
  GitHub.created s = size (GitHub.userLimiters s)
  ∧ (∀ u l, GitHub.userLimiters s !! u = Some l → (l < GitHub.created s)%nat)
  ∧ (∀ u1 u2 l, GitHub.userLimiters s !! u1 = Some l →
                GitHub.userLimiters s !! u2 = Some l → u1 = u2).

(** The navigations among some events. *)
Definition navigations (evs : list GitHub.Event) : list string :=
  omap (λ e, match e with GitHub.Navigate path => Some path | _ => None end) evs.

End Registry.

(** The bounds of the slices of a loop over [n] items with batch size [b]. *)
Definition batches (b n : nat) : list (nat * nat) :=
  (λ k, (k * b, k * b + b)%nat) <$> seq 0 (Summary.ceilDiv n b).

(** The clock at which a loop over [n] items with batch size [b], entered at
    clock [t], is left: one suspension per item and one per delay. *)
Definition loopEnd (t b n : nat) : nat :=
  (t + n + (Summary.ceilDiv n b - 1))%nat.

(** The errors logged with [console.error], in order. *)
Definition logged (j : list (nat * Event)) : list Error :=
  omap (λ x, match x.2 with ConsoleError _ e => Some e | _ => None end) j.

(** The three cards whose handler refreshes one count. *)
Inductive CountCard : Type := TrackedRepos | AnalyzedRepos | ActiveAutomations.

Definition countKey (card : CountCard) : string :=
  match card with
  | TrackedRepos => "trackedRepos"
  | AnalyzedRepos => "analyzedRepos"
  | ActiveAutomations => "activeAutomations"
  end.

Definition countQueryOf (card : CountCard) (sb : Supabase) : CountResult :=
  match card with
  | TrackedRepos => trackedQuery sb
  | AnalyzedRepos => analyzedQuery sb
  | ActiveAutomations => automationsQuery sb
  end.

Definition countUpdater (card : CountCard) : option Z → DashboardStats → DashboardStats :=
  match card with
  | TrackedRepos => withTrackedRepos
  | AnalyzedRepos => withAnalyzedRepos
  | ActiveAutomations => withAutomations
  end.

Definition countErrorToast (card : CountCard) : Toast :=
  match card with
  | TrackedRepos => trackedErrorToast
  | AnalyzedRepos => analyzedErrorToast
  | ActiveAutomations => automationsErrorToast
  end.

(** The field of the view state a count card shows. *)
Definition countField (card : CountCard) : DashboardStats → Z :=
  match card with
  | TrackedRepos => trackedRepos
  | AnalyzedRepos => analyzedRepos
  | ActiveAutomations => activeAutomations
  end.

(** The errors among some outcomes, in order. *)
Definition errorsOf (os : list Summary.Outcome) : list Error :=
  omap (λ o : Summary.Outcome, match o with inl e => Some e | inr _ => None end) os.

(** The changes of the [refreshing] flags among some events, in order. *)
Definition flags (j : list (nat * Event)) : list (string * bool) :=
  omap (λ x, match x.2 with SetRefreshing k v => Some (k, v) | _ => None end) j.

Section Frames.
Context {Σ : Type}.

(** What the card with the given key shows at a render: its value and
    whether its refresh button spins. *)
Definition shown (key : string) (cards : list (StatCard (Σ := Σ)))
  : option (string * option bool) :=
  (λ c, (cardValue c.2, cardRefreshing c.2))
    <$> list_find (λ c, cardKey c = key) cards.

(** The world of [fetchStats] when the repository query has answered after
    three successful count queries: the counts are committed if the effect
    was alive then. *)
Definition countsCommitted (teardown : option nat) (sb : Supabase) (w : World Σ)
  : World Σ :=
  let s1 := withCounts (count (trackedQuery sb)) (count (analyzedQuery sb))
                       (count (automationsQuery sb)) (stats w) in
  if Summary.aliveAt teardown (clock w + 3)
  then mkWorld s1 (refreshing w) (clock w + 4)
               (journal w ++ [((clock w + 3)%nat, SetStats s1)]) (client w)
  else mkWorld (stats w) (refreshing w) (clock w + 4) (journal w) (client w).

Definition countHandler (card : CountCard) : Supabase → M Σ unit :=
  match card with
  | TrackedRepos => refreshTrackedRepos
  | AnalyzedRepos => refreshAnalyzedRepos
  | ActiveAutomations => refreshActiveAutomations
  end.

(** The realtime handler that re-derives the count of a card. *)
Definition realtimeHandler (card : CountCard) : Supabase → M Σ unit :=
  match card with
  | TrackedRepos | AnalyzedRepos => onRepositoriesChange
  | ActiveAutomations => onJobsChange
  end.

(** From [w], [m] raises the flag [key] before anything else, lowers it after
    everything else, touches no flag in between, and leaves the flag lowered
    and every other flag as it was. *)
Definition toggles (key : string) {A} (m : M Σ A) (w : World Σ) : Prop :=
  let w' := (m w).2 in
  refreshing w' = <[key := false]> (refreshing w)
  ∧ ∃ J t, Summary.since w w'
           = ((clock w, SetRefreshing key true) :: J
                ++ [(t, SetRefreshing key false)])%list
           ∧ flags J = [].

(** [m] leaves the part [proj] of the world as it finds it. *)
Definition preserves {X A} (proj : World Σ → X) (m : M Σ A) : Prop :=
  ∀ w, proj (m w).2 = proj w.

(** [m] neither throws nor diverges from [w]. *)
Definition succeeds {A} (m : M Σ A) (w : World Σ) : Prop :=
  ∃ a, (m w).1 = Ok a.

(** [m] does not diverge from [w]. *)
Definition settles {A} (m : M Σ A) (w : World Σ) : Prop :=
  (m w).1 ≠ Diverge.

End Frames.

(** The first error among the answers of the three count queries. *)
Definition firstCountError (sb : Supabase) : option Error :=
  match countError (trackedQuery sb) with
  | Some e => Some e
  | None =>
      match countError (analyzedQuery sb) with
      | Some e => Some e
      | None => countError (automationsQuery sb)
      end
  end.

End Invariants.

(** ** Further example data *)

Module MoreExamples.
Import Dashboard.

(** The second count query fails. *)
Definition sbCountFails : Supabase :=
  mkSupabase (mkCount (Some 3) None)
             (mkCount None (Some (OtherError "permission denied")))
             (mkCount (Some 1) None)
             (mkRepos (Some Examples.repos3) None).

(** The count queries succeed, the list of repositories fails. *)
Definition sbListFails : Supabase :=
  mkSupabase (mkCount (Some 3) None) (mkCount (Some 2) None) (mkCount (Some 1) None)
             (mkRepos None (Some (OtherError "permission denied"))).

(** No repository is tracked. *)
Definition sbEmpty : Supabase :=
  mkSupabase (mkCount (Some 0) None) (mkCount (Some 0) None) (mkCount (Some 0) None)
             (mkRepos (Some []) None).

(** The list of repositories is [null], without an error. *)
Definition sbNull : Supabase :=
  mkSupabase (mkCount (Some 3) None) (mkCount (Some 2) None) (mkCount (Some 1) None)
             (mkRepos None None).

(** A world in which an earlier run has left values behind. *)
Definition usedWorld (script : list Scripted.Answer) : World (list Scripted.Answer) :=
  mkWorld (mkStats 7 1 1 1) {[ "trackedRepos" := false ]} 10 [] script.

(** A registry with one limiter, for the user u1. *)
Definition oneUser : Wired.State :=
  GitHub.mkState {[ "u1" := 0%nat ]} 1 (Some "t0") (λ _, None) [].

(** A network that answers every URL with the given response. *)
Definition answering (r : Wired.Response) : Wired.State :=
  GitHub.mkState {[ "u1" := 0%nat ]} 1 (Some "t0") (λ _, Some r) [].
End MoreExamples.

(** * Properties *)

#[local] Close Scope string_scope.

(** ** The client *)

Module GitHubFacts.
Import GitHub.

Section Facts.
Context {Json : Type}.
Variable URLSearchParams : list (string * string) → string.
Abbreviation State := (State (Json := Json)).

Lemma newEvents_app (s s' : State) evs :
  events s' = events s ++ evs → newEvents s s' = evs.
Proof. unfold newEvents. intros ->. by rewrite drop_app_length. Qed.

Lemma bind_emit {A} e (k : C State A) (s : State) :
  CM.bind (emit e) (λ _, k) s =
  k (mkState (userLimiters s) (created s) (credential s) (network s) (events s ++ [e])).
Proof. done. Qed.

(** [request] logs, withdraws one token, fetches, and clears the credential
    when the answer is a 401; it records nothing else. *)
Lemma request_events this path (s : State) l :
  limiter this = Some l →
  let url := ("https://api.github.com" +:+ path)%string in
  events (request this path s).2 =
  events s ++ [ConsoleLog "Making GitHub API request:" [path];
               RemoveTokens l 1;
               Fetch url ("Bearer " +:+ token this)]
           ++ requestTail (network s url).
Proof.
  intros Hl url. unfold request, removeTokens, fetch, clearToken, emit, json.
  rewrite Hl. unfold CM.bind, CM.modify, CM.gets, CM.throw, CM.ret. cbn.
  fold url. destruct (network s url) as [r|]; cbn.
  - destruct (ok r); cbn.
    + destruct (body r); cbn; by rewrite <-!app_assoc.
    + case_bool_decide; cbn; [by rewrite <-!app_assoc|].
      destruct (_ && _); cbn; by rewrite <-!app_assoc.
  - by rewrite <-!app_assoc.
Qed.

Lemma traffic_requestTail (r : option (Response (Json := Json))) :
  traffic (requestTail r) = [].
Proof. destruct r as [r|]; [|done]. cbn. by destruct (_ && _). Qed.

Lemma request_traffic this path (s : State) l :
  limiter this = Some l →
  traffic (newEvents s (request this path s).2)
  = [inl (l, 1); inr ("https://api.github.com" +:+ path)%string].
Proof.
  intros Hl. rewrite (newEvents_app _ _ _ (request_events this path s l Hl)).
  unfold traffic at 1. rewrite omap_app. fold (traffic (requestTail
    (network s ("https://api.github.com" +:+ path)%string))).
  by rewrite traffic_requestTail.
Qed.

Lemma request_unauthorized this path (s : State) l r :
  limiter this = Some l →
  network s ("https://api.github.com" +:+ path)%string = Some r →
  status r = 401 →
  request this path s =
  (inl TokenInvalid,
   mkState (userLimiters s) (created s) None (network s)
           (events s ++ [ConsoleLog "Making GitHub API request:" [path];
                         RemoveTokens l 1;
                         Fetch ("https://api.github.com" +:+ path)
                               ("Bearer " +:+ token this);
                         ClearToken])).
Proof.
  intros Hl Hr H401. unfold request, removeTokens, fetch, clearToken, emit, json.
  rewrite Hl. unfold CM.bind, CM.modify, CM.gets, CM.throw, CM.ret. cbn.
  rewrite Hr. cbn. unfold ok. rewrite H401.
  rewrite (bool_decide_false (200 ≤ 401 ≤ 299)) by lia. cbn.
  rewrite bool_decide_true by done. cbn.
  by rewrite <-!app_assoc.
Qed.

(** Every method of the client is one [request]. *)
Lemma invoke_traffic this m (s : State) l :
  limiter this = Some l →
  ∃ path, traffic (newEvents s (invoke URLSearchParams this m s).2)
          = [inl (l, 1); inr ("https://api.github.com" +:+ path)%string].
Proof.
  intros Hl.
  destruct m; cbn [invoke];
    unfold getRepository, searchRepositories, listRepositories, listRepositoryIssues;
    rewrite ?bind_emit; eexists.
  1,2: match goal with
       | |- context [request ?t ?p ?s'] =>
           pose proof (request_events t p s' l Hl) as E; cbn [events] in E
       end;
       rewrite <-app_assoc in E; rewrite (newEvents_app _ _ _ E);
       unfold traffic at 1; rewrite !omap_app;
       match goal with
       | |- context [omap _ (requestTail ?r)] =>
           change (omap _ (requestTail r)) with (traffic (requestTail r))
       end;
       by rewrite traffic_requestTail.
  all: by apply request_traffic.
Qed.

(** *** The registry of limiters *)

Lemma constructor_eq tok userId (s : State) :
  constructor tok userId s =
  match userLimiters s !! userId with
  | Some l => (inr (mkClient tok (Some l)), s)
  | None =>
      (inr (mkClient tok (Some (created s))),
       mkState (<[userId := created s]> (userLimiters s)) (S (created s))
               (credential s) (network s)
               (events s ++ [NewRateLimiter (created s) 5000 "hour"]))
  end.
Proof.
  unfold constructor, emit, CM.bind, CM.gets, CM.modify, CM.ret. cbn.
  destruct (userLimiters s !! userId) as [l|] eqn:E.
  - rewrite bool_decide_true by done. cbn. rewrite E. by destruct s.
  - rewrite bool_decide_false by (by intros [? ?]). cbn.
    by rewrite lookup_insert_eq.
Qed.

Lemma constructor_limiter tok userId (s : State) this s' :
  constructor tok userId s = (inr this, s') →
  is_Some (limiter this) ∧ userLimiters s' !! userId = limiter this
  ∧ userLimiters s ⊆ userLimiters s'.
Proof.
  rewrite constructor_eq. destruct (userLimiters s !! userId) as [l|] eqn:E;
    intros [= <- <-]; cbn.
  - eauto.
  - rewrite lookup_insert_eq. split_and!; [eauto|done|by apply insert_subseteq].
Qed.

Lemma request_userLimiters this path (s : State) :
  userLimiters (request this path s).2 = userLimiters s.
Proof.
  unfold request, removeTokens, fetch, clearToken, emit, json.
  unfold CM.bind, CM.modify, CM.gets, CM.throw, CM.ret. cbn.
  destruct (limiter this); cbn; [|done].
  destruct (network s _) as [r|]; cbn; [|done].
  destruct (ok r); cbn; [by destruct (body r)|].
  case_bool_decide; cbn; [done|]. by destruct (_ && _).
Qed.

Lemma invoke_userLimiters this m (s : State) :
  userLimiters (invoke URLSearchParams this m s).2 = userLimiters s.
Proof.
  destruct m; cbn [invoke];
    unfold getRepository, searchRepositories, listRepositories, listRepositoryIssues;
    rewrite ?bind_emit; by rewrite request_userLimiters.
Qed.

(** No call removes or replaces an entry of [userLimiters]. *)
Lemma perform_userLimiters (s : State) c :
  userLimiters s ⊆ userLimiters (perform URLSearchParams s c).
Proof.
  destruct c as [tok userId|this m|tok owner repo]; cbn [perform].
  - unfold getGitHubClient, create, CM.catch. destruct tok as [e|token].
    + by cbn.
    + destruct (constructor token userId s) as [[e|this] s'] eqn:E.
      * rewrite constructor_eq in E. by destruct (userLimiters s !! userId).
      * by apply constructor_limiter in E as (_ & _ & ?).
  - by rewrite invoke_userLimiters.
  - unfold getRepositoryDirect, CM.catch, fetch, clearToken, emit, json.
    unfold CM.bind, CM.modify, CM.gets, CM.throw, CM.ret.
    destruct tok as [e|token]; cbn.
    + by destruct (_ && _).
    + destruct (network s _) as [r|]; cbn; [|done].
      destruct (ok r); cbn.
      * by destruct (body r).
      * case_bool_decide; cbn; [done|]. by destruct (includes _ _).
Qed.

Lemma calls_userLimiters (s : State) calls :
  userLimiters s ⊆ userLimiters (foldl (perform URLSearchParams) s calls).
Proof.
  revert s. induction calls as [|c calls IH]; intros s; [done|].
  cbn. etrans; [apply perform_userLimiters|apply IH].
Qed.

Lemma limiter_shared tok1 tok2 userId (s : State) this1 s1 calls :
  constructor tok1 userId s = (inr this1, s1) →
  ∃ this2 s2,
    constructor tok2 userId (foldl (perform URLSearchParams) s1 calls) = (inr this2, s2)
    ∧ limiter this2 = limiter this1 ∧ is_Some (limiter this1).
Proof.
  intros (Hsome & Hl & _)%constructor_limiter.
  destruct Hsome as [l El]. rewrite El in Hl.
  pose proof (calls_userLimiters s1 calls) as Hsub.
  rewrite constructor_eq, (lookup_weaken _ _ _ _ Hl Hsub).
  eexists _, _. split; [done|]. rewrite El. eauto.
Qed.

(** The module-level [getRepository] fetches without a withdrawal: it is not
    a request of a client. *)
Lemma getRepositoryDirect_traffic token owner repo (s : State) :
  traffic (newEvents s (getRepositoryDirect (inr token) owner repo s).2)
  = [inr ("https://api.github.com/repos/" +:+ owner +:+ "/" +:+ repo)%string].
Proof.
  unfold getRepositoryDirect, CM.catch, fetch, clearToken, emit, json.
  unfold CM.bind, CM.modify, CM.gets, CM.throw, CM.ret. cbn.
  destruct (network s _) as [r|]; cbn.
  - destruct (ok r); cbn.
    + destruct (body r); cbn;
        unfold newEvents; cbn; rewrite <-?app_assoc, drop_app_length; done.
    + case_bool_decide; cbn; [|destruct (includes _ _)]; cbn;
        unfold newEvents; cbn; rewrite <-?app_assoc, drop_app_length; done.
  - unfold newEvents; cbn; rewrite <-?app_assoc, drop_app_length; done.
Qed.

End Facts.
End GitHubFacts.

(** ** The aggregation loop *)

Module LoopFacts.
Import Dashboard Summary.

Section Loop.
Context {Σ : Type}.
Variable withGitHub : ∀ A : Type, (GitHubClient Σ → C Σ A) → C Σ (option A).

Lemma processRepo_eq verbose repo acc (w : World Σ) :
  processRepo withGitHub verbose repo acc w =
  let o := (call withGitHub repo (client w)).1 in
  (Ok (tallyStep acc repo o),
   mkWorld (stats w) (refreshing w) (S (clock w))
           (journal w ++ errorLog verbose repo o (S (clock w)))
           (call withGitHub repo (client w)).2).
Proof.
  unfold processRepo, catch, bind, await, liftC, call. cbn.
  destruct (withGitHub Z (countOpenIssues repo) (client w)) as [[e|[c|]] σ'] eqn:E; cbn.
  - destruct verbose; cbn; [done|]. by rewrite app_nil_r.
  - by rewrite app_nil_r.
  - by rewrite app_nil_r.
Qed.

Lemma quiet_nil : quiet [].
Proof. done. Qed.

Lemma pacing_app j1 j2 : pacing (j1 ++ j2) = pacing j1 ++ pacing j2.
Proof. apply omap_app. Qed.
Lemma toasts_app j1 j2 : toasts (j1 ++ j2) = toasts j1 ++ toasts j2.
Proof. apply omap_app. Qed.
Lemma select_app p j1 j2 : select p (j1 ++ j2) = select p j1 ++ select p j2.
Proof. apply omap_app. Qed.

Lemma quiet_app j1 j2 : quiet j1 → quiet j2 → quiet (j1 ++ j2).
Proof.
  intros (H1&H2&H3) (H4&H5&H6). unfold quiet.
  by rewrite pacing_app, toasts_app, select_app, H1, H2, H3, H4, H5, H6.
Qed.

Lemma quiet_errorLog verbose repo o t : quiet (errorLog verbose repo o t).
Proof. destruct o as [e|?]; [destruct verbose|]; done. Qed.

Lemma processBatch_spec verbose batch : ∀ acc (w : World Σ),
  ∃ J, processBatch withGitHub verbose batch acc w =
       (Ok (tally acc batch (outcomes withGitHub batch (client w))),
        mkWorld (stats w) (refreshing w) (clock w + length batch)
                (journal w ++ J) (clientAfter withGitHub batch (client w)))
       ∧ quiet J.
Proof.
  induction batch as [|repo rest IH]; intros acc w.
  - exists []. cbn. unfold ret. rewrite app_nil_r, Nat.add_0_r. by destruct w.
  - cbn [processBatch]. unfold bind at 1. rewrite processRepo_eq. cbn zeta.
    edestruct IH as (J & -> & HJ). cbn.
    exists (errorLog verbose repo (call withGitHub repo (client w)).1 (S (clock w)) ++ J).
    split; [|apply quiet_app; [apply quiet_errorLog | done]].
    unfold call. destruct (withGitHub Z (countOpenIssues repo) (client w)) as [o σ'].
    cbn. rewrite <-app_assoc. repeat f_equal. lia.
Qed.

Lemma ceilDiv_bounds n b :
  (0 < b)%nat → (n ≤ ceilDiv n b * b ∧ ceilDiv n b * b < n + b)%nat.
Proof.
  intros Hb. unfold ceilDiv.
  pose proof (Nat.div_mod (n + b - 1) b ltac:(lia)) as Hdm.
  pose proof (Nat.mod_upper_bound (n + b - 1) b ltac:(lia)) as Hlt.
  nia.
Qed.

Lemma ceilDiv_unique n b q :
  (0 < b)%nat → (n ≤ q * b)%nat → (q * b < n + b)%nat → ceilDiv n b = q.
Proof.
  intros Hb H1 H2. destruct (ceilDiv_bounds n b Hb) as [H3 H4].
  generalize dependent (ceilDiv n b). intros c H3 H4.
  destruct (Nat.lt_trichotomy c q) as [Hlt|[Heq|Hgt]]; [|done|].
  - assert (S c * b ≤ q * b)%nat by (apply Nat.mul_le_mono_r; lia).
    rewrite Nat.mul_succ_l in *. lia.
  - assert (S q * b ≤ c * b)%nat by (apply Nat.mul_le_mono_r; lia).
    rewrite Nat.mul_succ_l in *. lia.
Qed.

Lemma ceilDiv_0 b : (0 < b)%nat → ceilDiv 0 b = 0%nat.
Proof. intros. apply ceilDiv_unique; lia. Qed.

Lemma ceilDiv_step n b :
  (0 < b)%nat → (0 < n)%nat → ceilDiv n b = S (ceilDiv (n - b) b).
Proof.
  intros Hb Hn. destruct (Nat.le_gt_cases b n) as [Hle|Hgt].
  - destruct (ceilDiv_bounds (n - b) b Hb) as [H3 H4].
    apply ceilDiv_unique; [done|..]; rewrite Nat.mul_succ_l; lia.
  - replace (n - b)%nat with 0%nat by lia. rewrite ceilDiv_0 by done.
    apply ceilDiv_unique; lia.
Qed.

Lemma ceilDiv_le n b : (0 < b)%nat → (ceilDiv n b ≤ n)%nat.
Proof.
  intros Hb. destruct n as [|n]; [by rewrite ceilDiv_0|].
  destruct (ceilDiv_bounds (S n) b Hb) as [_ H].
  destruct (Nat.le_gt_cases (ceilDiv (S n) b) (S n)) as [|Hgt]; [done|].
  assert (S (S n) * b ≤ ceilDiv (S n) b * b)%nat by (apply Nat.mul_le_mono_r; lia).
  assert (S n * 1 ≤ S n * b)%nat by (apply Nat.mul_le_mono_l; lia).
  rewrite (Nat.mul_succ_l (S n)) in *. lia.
Qed.

Lemma ceilDiv_pos n b : (0 < b)%nat → (0 < n)%nat → (0 < ceilDiv n b)%nat.
Proof. intros Hb Hn. rewrite (ceilDiv_step n b) by done. lia. Qed.

Lemma outcomes_app l1 l2 (σ : Σ) :
  outcomes withGitHub (l1 ++ l2) σ =
  outcomes withGitHub l1 σ ++ outcomes withGitHub l2 (clientAfter withGitHub l1 σ).
Proof.
  revert σ. induction l1 as [|r l1 IH]; intros σ; [done|].
  cbn. destruct (call withGitHub r σ) as [o σ']. cbn. by rewrite IH.
Qed.

Lemma clientAfter_app l1 l2 (σ : Σ) :
  clientAfter withGitHub (l1 ++ l2) σ =
  clientAfter withGitHub l2 (clientAfter withGitHub l1 σ).
Proof. revert σ. induction l1 as [|r l1 IH]; intros σ; [done|]. cbn. by rewrite IH. Qed.

Lemma outcomes_length l (σ : Σ) : length (outcomes withGitHub l σ) = length l.
Proof.
  revert σ. induction l as [|r l IH]; intros σ; [done|].
  cbn. destruct (call withGitHub r σ). cbn. by rewrite IH.
Qed.

Lemma tally_app acc l1 l2 os1 os2 :
  length os1 = length l1 →
  tally acc (l1 ++ l2) (os1 ++ os2) = tally (tally acc l1 os1) l2 os2.
Proof.
  revert acc os1. induction l1 as [|r l1 IH]; intros acc [|o os1] ?; simplify_eq/=; [done|].
  by apply IH.
Qed.

Lemma expectedPacing_0 b i : (0 < b)%nat → expectedPacing b 0 i = [].
Proof. intros. unfold expectedPacing. by rewrite ceilDiv_0. Qed.

Lemma expectedPacing_step b n i :
  (0 < b)%nat → (0 < n)%nat →
  expectedPacing b n i =
  inl (i, i + b)%nat ::
    (if bool_decide (b < n)%nat then [inr 1000] else []) ++
    expectedPacing b (n - b) (i + b).
Proof.
  intros Hb Hn. unfold expectedPacing. rewrite (ceilDiv_step n b) by done.
  cbn [seq fmap list_fmap]. rewrite <-fmap_S_seq, <-list_fmap_compose.
  rewrite (list_fmap_ext _ (λ k, inl (i + b + k * b, i + b + k * b + b)%nat)
                         (seq 0 (ceilDiv (n - b) b))); last first.
  { intros k x _. cbn. do 2 f_equal; lia. }
  cbn [intersperse]. rewrite !Nat.add_0_r. f_equal.
  case_bool_decide as Hlt.
  - assert (0 < ceilDiv (n - b) b)%nat as Hpos by (apply ceilDiv_pos; lia).
    destruct (ceilDiv (n - b) b) as [|c]; [lia|]. done.
  - replace (n - b)%nat with 0%nat by lia. by rewrite ceilDiv_0.
Qed.

Lemma bind_Ok {A B} (m : M Σ A) (k : A → M Σ B) w a w' :
  m w = (Ok a, w') → bind m k w = k a w'.
Proof. unfold bind. by intros ->. Qed.

Lemma batchLoop_exit fuel verbose B repos i acc (w : World Σ) :
  ¬ (i < length repos)%nat →
  batchLoop withGitHub fuel verbose B repos i acc w = (Ok acc, w).
Proof. intros Hi. destruct fuel; cbn [batchLoop]; by rewrite bool_decide_false. Qed.

Lemma batchLoop_spec verbose B repos :
  (0 < B)%nat →
  ∀ fuel i acc (w : World Σ),
    (ceilDiv (length repos - i) B ≤ fuel)%nat →
    ∃ J c,
      batchLoop withGitHub fuel verbose B repos i acc w =
      (Ok (tally acc (drop i repos) (outcomes withGitHub (drop i repos) (client w))),
       mkWorld (stats w) (refreshing w) c (journal w ++ J)
               (clientAfter withGitHub (drop i repos) (client w)))
      ∧ (clock w ≤ c)%nat
      ∧ pacing J = expectedPacing B (length repos - i) i
      ∧ toasts J = [] ∧ select isCommit J = [].
Proof.
  intros HB fuel. induction fuel as [|fuel IH]; intros i acc w Hfuel.
  all: destruct (decide (i < length repos)%nat) as [Hi|Hi].
  2,4: exists [], (clock w); rewrite batchLoop_exit, drop_ge by lia;
       replace (length repos - i)%nat with 0%nat by lia;
       rewrite expectedPacing_0, app_nil_r by done; by destruct w.
  - pose proof (ceilDiv_pos (length repos - i) B HB ltac:(lia)). lia.
  - cbn [batchLoop]. rewrite bool_decide_true by done.
    unfold bind at 1. unfold emit at 1.
    unfold bind at 1.
    destruct (processBatch_spec verbose (slice repos i (i + B)) acc
                (mkWorld (stats w) (refreshing w) (clock w)
                         (journal w ++ [(clock w, Slice i (i + B))]) (client w)))
      as (Jb & -> & Hq1 & Hq2 & Hq3).
    cbn [stats refreshing clock journal client].
    set (batch := slice repos i (i + B)).
    set (acc' := tally acc batch (outcomes withGitHub batch (client w))).
    set (σ' := clientAfter withGitHub batch (client w)).
    assert (Hsplit : drop i repos = batch ++ drop (i + B) repos).
    { unfold batch, slice. replace (i + B - i)%nat with B by lia.
      by rewrite <-drop_drop, take_drop. }
    assert (Hrest : (length repos - (i + B) = length repos - i - B)%nat) by lia.
    unfold bind at 1.
    rewrite (expectedPacing_step B (length repos - i) i) by lia.
    case_bool_decide as Hmore.
    + unfold sleep, await, emit. cbn [stats refreshing clock journal client].
      edestruct (IH (i + B)%nat acc') as (J & c & -> & Hc & Hp & Ht & Hs).
      { cbn [length]. rewrite Hrest.
        rewrite (ceilDiv_step (length repos - i) B) in Hfuel by lia. lia. }
      cbn [stats refreshing clock journal client] in *.
      exists ((clock w, Slice i (i + B)) :: Jb
              ++ ((clock w + length batch)%nat, SetTimeout 1000) :: J), c.
      split; [|split; [lia|]].
      * rewrite Hsplit, outcomes_app, clientAfter_app, tally_app
          by (by rewrite outcomes_length).
        by rewrite <-!app_assoc.
      * rewrite bool_decide_true by lia.
        change (?x :: Jb ++ ?y :: J) with ([x] ++ Jb ++ [y] ++ J).
        rewrite !pacing_app, !toasts_app, !select_app, Hq1, Hq2, Hq3, Hp, Ht, Hs, Hrest.
        done.
    + unfold ret at 1. cbn iota beta.
      edestruct (IH (i + B)%nat acc') as (J & c & -> & Hc & Hp & Ht & Hs).
      { cbn [length]. rewrite Hrest.
        rewrite (ceilDiv_step (length repos - i) B) in Hfuel by lia. lia. }
      cbn [stats refreshing clock journal client] in *.
      exists ((clock w, Slice i (i + B)) :: Jb ++ J), c.
      split; [|split; [lia|]].
      * rewrite Hsplit, outcomes_app, clientAfter_app, tally_app
          by (by rewrite outcomes_length).
        by rewrite <-!app_assoc.
      * rewrite bool_decide_false by lia.
        change (?x :: Jb ++ J) with ([x] ++ Jb ++ J).
        rewrite !pacing_app, !toasts_app, !select_app, Hq1, Hq2, Hq3, Hp, Ht, Hs, Hrest.
        done.
Qed.

Lemma since_app (w w' : World Σ) J : journal w' = journal w ++ J → since w w' = J.
Proof. unfold since. intros ->. by rewrite drop_app_length. Qed.

Lemma aggregate_spec verbose B repos (w : World Σ) :
  (0 < B)%nat →
  ∃ J c,
    aggregate withGitHub verbose B repos w =
    (Ok (result withGitHub repos (client w)),
     mkWorld (stats w) (refreshing w) c (journal w ++ J)
             (clientAfter withGitHub repos (client w)))
    ∧ (clock w ≤ c)%nat
    ∧ pacing J = expectedPacing B (length repos) 0
    ∧ toasts J = [] ∧ select isCommit J = [].
Proof.
  intros HB. unfold aggregate, result.
  destruct (batchLoop_spec verbose B repos HB (length repos) 0
              (mkAcc 0 []) w) as (J & c & HJ).
  { rewrite Nat.sub_0_r. by apply ceilDiv_le. }
  rewrite Nat.sub_0_r in HJ. by exists J, c.
Qed.

Lemma tally_summary repos : ∀ acc (os : list Outcome),
  length os = length repos →
  tally acc repos os =
  mkAcc (totalOpenIssues acc + sumCounts os) (failedRepos acc ++ failedIds repos os).
Proof.
  induction repos as [|r repos IH]; intros acc [|o os] Hlen; simplify_eq/=.
  - unfold sumCounts, failedIds. cbn. rewrite Z.add_0_r, app_nil_r. by destruct acc.
  - rewrite IH by done. unfold sumCounts, failedIds.
    destruct o as [e|[c|]]; cbn; f_equal; try lia. by rewrite <-app_assoc.
Qed.

Lemma result_summary repos (σ : Σ) :
  result withGitHub repos σ =
  mkAcc (sumCounts (outcomes withGitHub repos σ))
        (failedIds repos (outcomes withGitHub repos σ)).
Proof. unfold result. rewrite tally_summary by apply outcomes_length. done. Qed.

Lemma lefts_intersperse {A B} (sep : B) (l : list A) :
  lefts (intersperse (inr sep) (inl <$> l)) = l.
Proof.
  induction l as [|x [|y l] IH]; [done..|].
  change (lefts (inl x :: inr sep :: intersperse (inr sep) (inl <$> y :: l)) = x :: y :: l).
  unfold lefts in *. cbn [omap list_omap]. by rewrite IH.
Qed.

Lemma rights_intersperse {A B} (sep : B) (l : list A) :
  rights (intersperse (inr sep) (inl <$> l)) = replicate (length l - 1) sep.
Proof.
  induction l as [|x [|y l] IH]; [done..|].
  replace (length (x :: y :: l) - 1)%nat with (S (length (y :: l) - 1))
    by (cbn [length]; lia).
  change (rights (inl x :: inr sep :: intersperse (inr sep) (inl <$> y :: l))
          = sep :: replicate (length (y :: l) - 1) sep).
  unfold rights in *. cbn [omap list_omap]. by rewrite IH.
Qed.

Lemma select_isBatch_pacing J : length (select isBatch J) = length (lefts (pacing J)).
Proof.
  unfold select, lefts, pacing. induction J as [|[t e] J IH]; [done|].
  destruct e; cbn; by rewrite ?IH.
Qed.

Lemma select_isDelay_pacing J : length (select isDelay J) = length (rights (pacing J)).
Proof.
  unfold select, rights, pacing. induction J as [|[t e] J IH]; [done|].
  destruct e; cbn; by rewrite ?IH.
Qed.

Lemma expectedPacing_inl b n i :
  expectedPacing b n i =
  intersperse (inr 1000)
    (inl <$> ((λ k, (i + k * b, i + k * b + b)%nat) <$> seq 0 (ceilDiv n b))).
Proof. unfold expectedPacing. by rewrite <-list_fmap_compose. Qed.

Lemma expectedPacing_batches b n i : length (lefts (expectedPacing b n i)) = ceilDiv n b.
Proof.
  rewrite expectedPacing_inl.
  by rewrite lefts_intersperse, length_fmap, length_seq.
Qed.

Lemma expectedPacing_delays b n i :
  rights (expectedPacing b n i) = replicate (ceilDiv n b - 1) 1000.
Proof.
  rewrite expectedPacing_inl.
  by rewrite rights_intersperse, length_fmap, length_seq.
Qed.

Lemma countQuery_ok q (w : World Σ) :
  countError q = None → countQuery q w = (Ok (count q), tick w).
Proof. unfold countQuery, bind, await, ret. cbn. by intros ->. Qed.

Lemma report_eq acc (w : World Σ) :
  report acc w =
  (Ok tt,
   mkWorld (withOpenIssues (totalOpenIssues acc) (stats w)) (refreshing w) (clock w)
           (journal w ++ (clock w, SetStats (withOpenIssues (totalOpenIssues acc) (stats w)))
                      :: warning (clock w) acc)
           (client w)).
Proof.
  unfold report, bind, setStats, warning, toast, emit, ret.
  case_bool_decide; cbn; [by rewrite <-app_assoc|done].
Qed.

Lemma fetchStats_live sb repos (w : World Σ) :
  healthy sb → data (repositoriesQuery sb) = Some repos →
  let acc := result withGitHub repos (client w) in
  let s1 := withCounts (count (trackedQuery sb)) (count (analyzedQuery sb))
                       (count (automationsQuery sb)) (stats w) in
  let s2 := withOpenIssues (totalOpenIssues acc) s1 in
  ∃ J c,
    fetchStats withGitHub None sb w =
    (Ok tt,
     mkWorld s2 (refreshing w) c
             (journal w ++ (clock w + 3, SetStats s1)%nat :: J
                        ++ (c, SetStats s2) :: warning c acc)
             (clientAfter withGitHub repos (client w)))
    ∧ pacing J = expectedPacing 2 (length repos) 0
    ∧ toasts J = [] ∧ select isCommit J = [].
Proof.
  intros (H1 & H2 & H3 & H4) Hdata acc s1 s2.
  unfold fetchStats, catch.
  rewrite (bind_Ok _ _ _ _ _ (countQuery_ok _ _ H1)).
  rewrite (bind_Ok _ _ _ _ _ (countQuery_ok _ _ H2)).
  rewrite (bind_Ok _ _ _ _ _ (countQuery_ok _ _ H3)).
  unfold bind at 1, mounted at 1. unfold bind at 1, setStats at 1.
  unfold bind at 1, await at 1, ret at 1. rewrite H4.
  unfold bind at 1, ret at 1. unfold bind at 1, mounted at 1. rewrite Hdata.
  cbn [tick stats refreshing clock journal client].
  unfold bind at 1.
  edestruct (aggregate_spec false 2 repos) as (J & c & -> & Hc & Hp & Ht & Hs); [lia|].
  cbn [stats refreshing clock journal client].
  unfold bind at 1, mounted at 1. rewrite report_eq.
  cbn [stats refreshing clock journal client].
  exists J, c. split; [|done].
  fold acc. fold s1. fold s2. do 2 f_equal.
  replace (S (S (S (clock w)))) with (clock w + 3)%nat by lia.
  by rewrite <-!app_assoc.
Qed.

Lemma refreshOpenIssues_run sb repos (w : World Σ) :
  dataError (repositoriesQuery sb) = None → data (repositoriesQuery sb) = Some repos →
  let acc := result withGitHub repos (client w) in
  let s2 := withOpenIssues (totalOpenIssues acc) (stats w) in
  ∃ J c,
    refreshOpenIssues withGitHub sb w =
    (Ok tt,
     mkWorld s2 (<["openIssues"%string := false]> (<["openIssues"%string := true]> (refreshing w))) c
             (journal w ++ (clock w, SetRefreshing "openIssues" true) :: J
                        ++ (c, SetStats s2) :: warning c acc
                        ++ [(c, SetRefreshing "openIssues" false)])
             (clientAfter withGitHub repos (client w)))
    ∧ pacing J = expectedPacing 2 (length repos) 0
    ∧ toasts J = [] ∧ select isCommit J = [].
Proof.
  intros H4 Hdata acc s2.
  unfold refreshOpenIssues. unfold bind at 1, setRefreshing at 1.
  unfold finally, catch.
  unfold bind at 1, await at 1, ret at 1. rewrite H4.
  unfold bind at 1, ret at 1. rewrite Hdata.
  cbn [stats refreshing clock journal client].
  unfold bind at 1.
  edestruct (aggregate_spec true 2 repos) as (J & c & -> & Hc & Hp & Ht & Hs); [lia|].
  rewrite report_eq.
  cbn [stats refreshing clock journal client].
  unfold bind, setRefreshing, ret. cbn [stats refreshing clock journal client].
  exists J, c. split; [|done].
  fold acc. fold s2. do 2 f_equal.
  by rewrite <-!app_assoc.
Qed.

End Loop.

Section Liveness.
Context {Σ : Type}.
Variable withGitHub : ∀ A : Type, (GitHubClient Σ → C Σ A) → C Σ (option A).
Variable teardown : option nat.

Lemma guardedAt_quiet {A} (m : M Σ A) (w : World Σ) :
  journal (m w).2 = journal w → guardedAt teardown m w.
Proof. intros E. exists []. by rewrite app_nil_r. Qed.

Lemma guardedAt_bind {A B} (m : M Σ A) (k : A → M Σ B) (w : World Σ) :
  guardedAt teardown m w →
  (∀ a w', m w = (Ok a, w') → guardedAt teardown (k a) w') →
  guardedAt teardown (bind m k) w.
Proof.
  intros (J1 & E1 & F1) Hk. unfold guardedAt, bind.
  destruct (m w) as [[a|e|] w'] eqn:E; cbn in *.
  - destruct (Hk a w' eq_refl) as (J2 & E2 & F2).
    exists (J1 ++ J2). rewrite E2, E1, app_assoc. split; [done|]. by apply Forall_app.
  - by exists J1.
  - by exists J1.
Qed.

Lemma guardedAt_catch {A} (m : M Σ A) (h : Error → M Σ A) (w : World Σ) :
  guardedAt teardown m w →
  (∀ e w', m w = (Throw e, w') → guardedAt teardown (h e) w') →
  guardedAt teardown (catch m h) w.
Proof.
  intros (J1 & E1 & F1) Hh. unfold guardedAt, catch.
  destruct (m w) as [[a|e|] w'] eqn:E; cbn in *.
  - by exists J1.
  - destruct (Hh e w' eq_refl) as (J2 & E2 & F2).
    exists (J1 ++ J2). rewrite E2, E1, app_assoc. split; [done|]. by apply Forall_app.
  - by exists J1.
Qed.

Lemma guardedAt_await {A} (m : M Σ A) (w : World Σ) :
  guardedAt teardown m w → guardedAt teardown (await m) w.
Proof. intros (J & E & F). exists J. unfold await. by destruct (m w). Qed.

Lemma guardedAt_emit e (w : World Σ) :
  isVisible e = false → guardedAt teardown (emit e) w.
Proof.
  intros He. exists [(clock w, e)]. split; [done|].
  apply Forall_singleton. cbn. by rewrite He.
Qed.

Lemma guardedAt_toast t (w : World Σ) :
  aliveAt teardown (clock w) = true → guardedAt teardown (toast t) w.
Proof.
  intros Ha. exists [(clock w, ShowToast t)]. split; [done|].
  by apply Forall_singleton.
Qed.

Lemma guardedAt_countQuery q (w : World Σ) : guardedAt teardown (countQuery q) w.
Proof.
  apply guardedAt_quiet. unfold countQuery, bind, await, ret, throw. cbn.
  by destruct (countError q).
Qed.

Lemma guardedAt_processRepo verbose repo acc (w : World Σ) :
  guardedAt teardown (processRepo withGitHub verbose repo acc) w.
Proof.
  unfold guardedAt. rewrite processRepo_eq. cbn. eexists. split; [done|].
  unfold errorLog. destruct (call withGitHub repo (client w)).1 as [e|?]; [destruct verbose|].
  all: repeat constructor; done.
Qed.

Lemma guardedAt_processBatch verbose batch : ∀ acc (w : World Σ),
  guardedAt teardown (processBatch withGitHub verbose batch acc) w.
Proof.
  induction batch as [|repo rest IH]; intros acc w; cbn [processBatch].
  - by apply guardedAt_quiet.
  - apply guardedAt_bind; [apply guardedAt_processRepo|]. intros; apply IH.
Qed.

Lemma guardedAt_batchLoop fuel verbose B repos : ∀ i acc (w : World Σ),
  guardedAt teardown (batchLoop withGitHub fuel verbose B repos i acc) w.
Proof.
  induction fuel as [|fuel IH]; intros i acc w; cbn [batchLoop];
    case_bool_decide; try by apply guardedAt_quiet.
  apply guardedAt_bind; [by apply guardedAt_emit|]. intros _ w1 _.
  apply guardedAt_bind; [apply guardedAt_processBatch|]. intros acc' w2 _.
  apply guardedAt_bind; [|intros; apply IH].
  case_bool_decide; [|by apply guardedAt_quiet].
  apply guardedAt_await. by apply guardedAt_emit.
Qed.

Lemma guardedAt_whenMounted (m : M Σ unit) (w : World Σ) :
  (aliveAt teardown (clock w) = true → guardedAt teardown m w) →
  guardedAt teardown (bind (mounted teardown) (λ alive, if alive then m else ret tt)) w.
Proof.
  intros Hm. unfold guardedAt in *. unfold bind, mounted.
  change (match teardown with Some k => bool_decide (clock w < k)%nat | None => true end)
    with (aliveAt teardown (clock w)).
  destruct (aliveAt teardown (clock w)); [by apply Hm|].
  exists []. by rewrite app_nil_r.
Qed.

Lemma guardedAt_setStats f (w : World Σ) :
  aliveAt teardown (clock w) = true → guardedAt teardown (setStats f) w.
Proof.
  intros Ha. exists [(clock w, SetStats (f (stats w)))]. split; [done|].
  by apply Forall_singleton.
Qed.

Lemma guardedAt_report acc (w : World Σ) :
  aliveAt teardown (clock w) = true → guardedAt teardown (report acc) w.
Proof.
  intros Ha. unfold guardedAt. rewrite report_eq. cbn. eexists. split; [done|].
  constructor; [done|]. unfold warning. case_bool_decide; repeat constructor; done.
Qed.

Lemma fetchStats_guarded sb (w : World Σ) :
  guardedAt teardown (fetchStats withGitHub teardown sb) w.
Proof.
  unfold fetchStats. apply guardedAt_catch.
  - apply guardedAt_bind; [apply guardedAt_countQuery|]. intros tracked w1 _.
    apply guardedAt_bind; [apply guardedAt_countQuery|]. intros analyzed w2 _.
    apply guardedAt_bind; [apply guardedAt_countQuery|]. intros automations w3 _.
    apply guardedAt_bind; [by apply guardedAt_quiet|]. intros alive w4 E.
    injection E as <- <-.
    apply guardedAt_bind.
    { change (match teardown with Some k => bool_decide (clock w3 < k)%nat | None => true end)
        with (aliveAt teardown (clock w3)).
      destruct (aliveAt teardown (clock w3)) eqn:Ha;
        [by apply guardedAt_setStats | by apply guardedAt_quiet]. }
    intros _ w5 _.
    apply guardedAt_bind; [by apply guardedAt_quiet|]. intros r w6 _.
    apply guardedAt_bind.
    { destruct (dataError r); by apply guardedAt_quiet. }
    intros _ w7 _.
    apply guardedAt_bind; [by apply guardedAt_quiet|]. intros alive w8 _.
    destruct (data r) as [repositories|]; [|by apply guardedAt_quiet].
    destruct alive; [|by apply guardedAt_quiet].
    apply guardedAt_bind; [apply guardedAt_batchLoop|]. intros acc w9 _.
    apply guardedAt_whenMounted. apply guardedAt_report.
  - intros e w1 _.
    apply guardedAt_bind; [by apply guardedAt_emit|]. intros _ w2 _.
    apply guardedAt_whenMounted. apply guardedAt_toast.
Qed.
End Liveness.

End LoopFacts.

(** ** The loop in full: its clock, its log and its timeline *)

Module LoopRuns.
Import Dashboard Summary Invariants LoopFacts.

Section Loop.
Context {Σ : Type}.
Variable withGitHub : ∀ A : Type, (GitHubClient Σ → C Σ A) → C Σ (option A).

Lemma slice_length (repos : list Repo) i B :
  length (slice repos i (i + B)) = (B `min` (length repos - i))%nat.
Proof. unfold slice. rewrite length_take, length_drop. f_equal. lia. Qed.

Lemma loopEnd_0 t b : (0 < b)%nat → loopEnd t b 0 = t.
Proof. intros. unfold loopEnd. rewrite ceilDiv_0 by done. lia. Qed.

Lemma batchLoop_clock verbose B repos :
  (0 < B)%nat →
  ∀ fuel i acc (w : World Σ),
    (ceilDiv (length repos - i) B ≤ fuel)%nat →
    clock (batchLoop withGitHub fuel verbose B repos i acc w).2
    = loopEnd (clock w) B (length repos - i).
Proof.
  intros HB fuel. induction fuel as [|fuel IH]; intros i acc w Hfuel.
  all: destruct (decide (i < length repos)%nat) as [Hi|Hi].
  2,4: rewrite batchLoop_exit by done;
       replace (length repos - i)%nat with 0%nat by lia; by rewrite loopEnd_0.
  - pose proof (ceilDiv_pos (length repos - i) B HB ltac:(lia)). lia.
  - cbn [batchLoop]. rewrite bool_decide_true by done.
    unfold bind at 1. unfold emit at 1. unfold bind at 1.
    destruct (processBatch_spec withGitHub verbose (slice repos i (i + B)) acc
                (mkWorld (stats w) (refreshing w) (clock w)
                         (journal w ++ [(clock w, Slice i (i + B))]) (client w)))
      as (Jb & -> & _).
    cbn [stats refreshing clock journal client].
    rewrite slice_length.
    assert (Hrest : (length repos - (i + B) = length repos - i - B)%nat) by lia.
    assert (ceilDiv (length repos - (i + B)) B ≤ fuel)%nat as Hfuel'.
    { rewrite Hrest. rewrite (ceilDiv_step (length repos - i) B) in Hfuel by lia. lia. }
    unfold bind at 1. case_bool_decide as Hmore.
    + unfold sleep, await, emit. cbn [stats refreshing clock journal client].
      rewrite IH by done. cbn [clock]. unfold loopEnd.
      rewrite (ceilDiv_step (length repos - i) B) by lia. rewrite Hrest.
      pose proof (ceilDiv_pos (length repos - i - B) B HB ltac:(lia)). lia.
    + unfold ret at 1. cbn iota beta. rewrite IH by done. cbn [clock].
      unfold loopEnd. rewrite (ceilDiv_step (length repos - i) B) by lia.
      replace (length repos - (i + B))%nat with 0%nat by lia.
      replace (length repos - i - B)%nat with 0%nat by lia.
      rewrite ceilDiv_0 by done. lia.
Qed.

Lemma logged_app j1 j2 : logged (j1 ++ j2) = logged j1 ++ logged j2.
Proof. apply omap_app. Qed.
Lemma flags_app j1 j2 : flags (j1 ++ j2) = flags j1 ++ flags j2.
Proof. apply omap_app. Qed.
Lemma errorsOf_app o1 o2 : errorsOf (o1 ++ o2) = errorsOf o1 ++ errorsOf o2.
Proof. apply omap_app. Qed.

Lemma processBatch_log verbose batch : ∀ acc (w : World Σ),
  ∃ J, journal (processBatch withGitHub verbose batch acc w).2 = journal w ++ J
       ∧ logged J = (if verbose then errorsOf (outcomes withGitHub batch (client w)) else [])
       ∧ flags J = [].
Proof.
  induction batch as [|repo rest IH]; intros acc w.
  - exists []. cbn. rewrite app_nil_r. by destruct verbose.
  - cbn [processBatch]. unfold bind at 1. rewrite processRepo_eq. cbn zeta.
    edestruct IH as (J & E & HL & HF). rewrite E. cbn [journal client].
    exists (errorLog verbose repo (call withGitHub repo (client w)).1 (S (clock w)) ++ J).
    split; [by rewrite app_assoc|].
    rewrite logged_app, flags_app, HL, HF. cbn [outcomes].
    destruct (call withGitHub repo (client w)) as [[e|c] σ']; destruct verbose; done.
Qed.

Lemma batchLoop_log verbose B repos :
  (0 < B)%nat →
  ∀ fuel i acc (w : World Σ),
    (ceilDiv (length repos - i) B ≤ fuel)%nat →
    ∃ J, journal (batchLoop withGitHub fuel verbose B repos i acc w).2 = journal w ++ J
         ∧ logged J = (if verbose
                       then errorsOf (outcomes withGitHub (drop i repos) (client w))
                       else [])
         ∧ flags J = [].
Proof.
  intros HB fuel. induction fuel as [|fuel IH]; intros i acc w Hfuel.
  all: destruct (decide (i < length repos)%nat) as [Hi|Hi].
  2,4: exists []; rewrite batchLoop_exit, drop_ge, app_nil_r by lia; by destruct verbose.
  - pose proof (ceilDiv_pos (length repos - i) B HB ltac:(lia)). lia.
  - cbn [batchLoop]. rewrite bool_decide_true by done.
    unfold bind at 1. unfold emit at 1. unfold bind at 1.
    set (w0 := mkWorld (stats w) (refreshing w) (clock w)
                       (journal w ++ [(clock w, Slice i (i + B))]) (client w)).
    destruct (processBatch_log verbose (slice repos i (i + B)) acc w0) as (Jb & Eb & HLb & HFb).
    destruct (processBatch_spec withGitHub verbose (slice repos i (i + B)) acc w0)
      as (Jb' & E' & _).
    rewrite E' in Eb |- *. cbn [snd journal] in Eb. apply app_inv_head in Eb. subst Jb'.
    cbn [stats refreshing clock journal client].
    set (batch := slice repos i (i + B)) in *.
    set (σ' := clientAfter withGitHub batch (client w)).
    assert (Hsplit : drop i repos = batch ++ drop (i + B) repos).
    { unfold batch, slice. replace (i + B - i)%nat with B by lia.
      by rewrite <-drop_drop, take_drop. }
    assert (Hrest : (length repos - (i + B) = length repos - i - B)%nat) by lia.
    assert (ceilDiv (length repos - (i + B)) B ≤ fuel)%nat as Hfuel'.
    { rewrite Hrest. rewrite (ceilDiv_step (length repos - i) B) in Hfuel by lia. lia. }
    unfold bind at 1. case_bool_decide as Hmore.
    + unfold sleep, await, emit. cbn [stats refreshing clock journal client].
      edestruct (IH (i + B)%nat) as (J & -> & HL & HF); [done|].
      cbn [stats refreshing clock journal client] in *.
      exists ((clock w, Slice i (i + B)) :: Jb
              ++ ((clock w + length batch)%nat, SetTimeout 1000) :: J).
      split; [subst w0; cbn [journal clock]; by rewrite <-!app_assoc|].
      change (?x :: Jb ++ ?y :: J) with ([x] ++ Jb ++ [y] ++ J).
      rewrite !logged_app, !flags_app, HLb, HFb, HL, HF, Hsplit, outcomes_app, errorsOf_app.
      by destruct verbose.
    + unfold ret at 1. cbn iota beta.
      edestruct (IH (i + B)%nat) as (J & -> & HL & HF); [done|].
      cbn [stats refreshing clock journal client] in *.
      exists ((clock w, Slice i (i + B)) :: Jb ++ J).
      split; [subst w0; cbn [journal clock]; by rewrite <-!app_assoc|].
      change (?x :: Jb ++ J) with ([x] ++ Jb ++ J).
      rewrite !logged_app, !flags_app, HLb, HFb, HL, HF, Hsplit, outcomes_app, errorsOf_app.
      by destruct verbose.
Qed.

(** The loop, in full: its result and the world it leaves. *)
Lemma aggregate_run verbose B repos (w : World Σ) :
  (0 < B)%nat →
  ∃ J,
    aggregate withGitHub verbose B repos w =
    (Ok (result withGitHub repos (client w)),
     mkWorld (stats w) (refreshing w) (loopEnd (clock w) B (length repos))
             (journal w ++ J) (clientAfter withGitHub repos (client w)))
    ∧ pacing J = expectedPacing B (length repos) 0
    ∧ toasts J = [] ∧ select isCommit J = []
    ∧ logged J = (if verbose then errorsOf (outcomes withGitHub repos (client w)) else [])
    ∧ flags J = [].
Proof.
  intros HB.
  destruct (aggregate_spec withGitHub verbose B repos w HB) as (J & c & E & _ & Hp & Ht & Hs).
  pose proof (batchLoop_clock verbose B repos HB (length repos) 0 (mkAcc 0 []) w) as Hc.
  destruct (batchLoop_log verbose B repos HB (length repos) 0 (mkAcc 0 []) w)
    as (J' & EJ & HL & HF).
  { rewrite Nat.sub_0_r. by apply ceilDiv_le. }
  rewrite Nat.sub_0_r in Hc. specialize (Hc (ceilDiv_le _ _ HB)).
  fold (aggregate withGitHub verbose B repos) in Hc, EJ. rewrite E in Hc, EJ.
  cbn in Hc, EJ. apply app_inv_head in EJ. subst c J'. rewrite drop_0 in HL.
  by exists J.
Qed.

Lemma timeline_app j1 j2 : timeline (j1 ++ j2) = timeline j1 ++ timeline j2.
Proof. apply omap_app. Qed.

Lemma pacing_timeline j : pacing j = snd <$> timeline j.
Proof.
  unfold pacing, timeline. induction j as [|[t e] j IH]; [done|].
  cbn. destruct e; cbn; by rewrite IH.
Qed.

Lemma timeline_quiet j : pacing j = [] → timeline j = [].
Proof. rewrite pacing_timeline. apply fmap_nil_inv. Qed.

Lemma batchLoop_timeline verbose B repos :
  (0 < B)%nat →
  ∀ fuel i acc (w : World Σ),
    (ceilDiv (length repos - i) B ≤ fuel)%nat →
    ∃ J, journal (batchLoop withGitHub fuel verbose B repos i acc w).2 = journal w ++ J
         ∧ timeline J = expectedTimeline (ceilDiv (length repos - i) B) B i (clock w).
Proof.
  intros HB fuel. induction fuel as [|fuel IH]; intros i acc w Hfuel.
  all: destruct (decide (i < length repos)%nat) as [Hi|Hi].
  2,4: exists []; rewrite batchLoop_exit, app_nil_r by lia;
       replace (length repos - i)%nat with 0%nat by lia; by rewrite ceilDiv_0.
  - pose proof (ceilDiv_pos (length repos - i) B HB ltac:(lia)). lia.
  - cbn [batchLoop]. rewrite bool_decide_true by done.
    unfold bind at 1. unfold emit at 1. unfold bind at 1.
    set (w0 := mkWorld (stats w) (refreshing w) (clock w)
                       (journal w ++ [(clock w, Slice i (i + B))]) (client w)).
    destruct (processBatch_spec withGitHub verbose (slice repos i (i + B)) acc w0)
      as (Jb & -> & Hq & _).
    apply timeline_quiet in Hq.
    cbn [stats refreshing clock journal client]. rewrite slice_length.
    assert (Hrest : (length repos - (i + B) = length repos - i - B)%nat) by lia.
    assert (ceilDiv (length repos - (i + B)) B ≤ fuel)%nat as Hfuel'.
    { rewrite Hrest. rewrite (ceilDiv_step (length repos - i) B) in Hfuel by lia. lia. }
    rewrite (ceilDiv_step (length repos - i) B) by lia. rewrite <-Hrest.
    unfold bind at 1. case_bool_decide as Hmore.
    + unfold sleep, await, emit. cbn [stats refreshing clock journal client].
      edestruct (IH (i + B)%nat) as (J & -> & HJ); [done|].
      cbn [stats refreshing clock journal client] in *.
      exists ((clock w, Slice i (i + B)) :: Jb
              ++ ((clock w + B `min` (length repos - i))%nat, SetTimeout 1000) :: J).
      split; [subst w0; cbn [journal clock]; by rewrite <-!app_assoc|].
      change (?x :: Jb ++ ?y :: J) with ([x] ++ Jb ++ [y] ++ J).
      rewrite !timeline_app, Hq, HJ. cbn [app timeline omap list_omap fst snd].
      pose proof (ceilDiv_pos (length repos - (i + B)) B HB ltac:(lia)) as Hpos.
      destruct (ceilDiv (length repos - (i + B)) B) as [|c']; [lia|].
      cbn [expectedTimeline].
      replace (B `min` (length repos - i))%nat with B by lia.
      subst w0. cbn [clock].
      by replace (S (clock w + B)) with (clock w + B + 1)%nat by lia.
    + unfold ret at 1. cbn iota beta.
      edestruct (IH (i + B)%nat) as (J & -> & HJ); [done|].
      cbn [stats refreshing clock journal client] in *.
      exists ((clock w, Slice i (i + B)) :: Jb ++ J).
      split; [subst w0; cbn [journal clock]; by rewrite <-!app_assoc|].
      change (?x :: Jb ++ J) with ([x] ++ Jb ++ J).
      rewrite !timeline_app, Hq, HJ.
      replace (length repos - (i + B))%nat with 0%nat by lia.
      by rewrite ceilDiv_0.
Qed.

(** The timeline of the whole loop. *)
Lemma aggregate_timeline verbose B repos (w : World Σ) :
  (0 < B)%nat →
  timeline (since w (aggregate withGitHub verbose B repos w).2)
  = expectedTimeline (ceilDiv (length repos) B) B 0 (clock w).
Proof.
  intros HB.
  destruct (batchLoop_timeline verbose B repos HB (length repos) 0 (mkAcc 0 []) w)
    as (J & EJ & HJ).
  { rewrite Nat.sub_0_r. by apply ceilDiv_le. }
  fold (aggregate withGitHub verbose B repos) in EJ.
  rewrite (since_app _ _ J EJ), HJ. by rewrite Nat.sub_0_r.
Qed.

(** In such a timeline a delay is never last: the entry after it is a batch,
    started one suspension after the delay. *)
Lemma expectedTimeline_delay c b : ∀ i t k u ms,
  expectedTimeline c b i t !! k = Some (u, inr ms) →
  ∃ a, expectedTimeline c b i t !! S k = Some (S u, inl a).
Proof.
  induction c as [|c IH]; intros i t k u ms; [done|].
  cbn [expectedTimeline]. destruct k as [|k]; [done|]. cbn [lookup list_lookup].
  destruct c as [|c]; [done|].
  destruct k as [|k].
  - intros [= <- <-]. cbn. eexists. do 2 f_equal. lia.
  - intros Hk. apply (IH (i + b)%nat (t + b + 1)%nat k u ms Hk).
Qed.
End Loop.
End LoopRuns.

(** ** The properties of the specification *)

Module Properties.
Import Dashboard Summary LoopFacts.

Section Runs.
Context {Σ : Type}.
Variable withGitHub : ∀ A : Type, (GitHubClient Σ → C Σ A) → C Σ (option A).

Lemma toasts_warning t acc :
  toasts (warning t acc) =
  if bool_decide (0 < length (failedRepos acc))%nat
  then [warningToast (failedRepos acc)] else [].
Proof. unfold warning. by case_bool_decide. Qed.

Lemma select_isCommit_warning t acc : select isCommit (warning t acc) = [].
Proof. unfold warning. by case_bool_decide. Qed.

Lemma pacing_warning t acc : pacing (warning t acc) = [].
Proof. unfold warning. by case_bool_decide. Qed.

(** What a live [fetchStats] whose queries succeed leaves behind. *)
Lemma fetchStats_completed sb repos (w : World Σ) :
  healthy sb → data (repositoriesQuery sb) = Some repos →
  let acc := result withGitHub repos (client w) in
  let s1 := withCounts (count (trackedQuery sb)) (count (analyzedQuery sb))
                       (count (automationsQuery sb)) (stats w) in
  let s2 := withOpenIssues (totalOpenIssues acc) s1 in
  ∃ w',
    fetchStats withGitHub None sb w = (Ok tt, w')
    ∧ stats w' = s2
    ∧ client w' = clientAfter withGitHub repos (client w)
    ∧ select isCommit (since w w') = [SetStats s1; SetStats s2]
    ∧ toasts (since w w') =
        (if bool_decide (0 < length (failedRepos acc))%nat
         then [warningToast (failedRepos acc)] else [])
    ∧ pacing (since w w') = expectedPacing 2 (length repos) 0.
Proof.
  intros Hsb Hdata acc s1 s2.
  destruct (fetchStats_live withGitHub sb repos w Hsb Hdata)
    as (J & c & E & Hp & Ht & Hs).
  eexists. split; [exact E|]. cbn [stats client].
  split; [done|]. split; [done|].
  erewrite since_app by (cbn [journal]; reflexivity).
  fold acc s1 s2.
  change (?x :: J ++ ?y :: ?z) with ([x] ++ J ++ [y] ++ z).
  rewrite !select_app, !toasts_app, !pacing_app, Hs, Ht, Hp.
  rewrite toasts_warning, select_isCommit_warning, pacing_warning. cbn.
  by rewrite app_nil_r.
Qed.

(** What [refreshStats.openIssues] leaves behind when its query succeeds. *)
Lemma refreshOpenIssues_completed sb repos (w : World Σ) :
  dataError (repositoriesQuery sb) = None → data (repositoriesQuery sb) = Some repos →
  let acc := result withGitHub repos (client w) in
  let s2 := withOpenIssues (totalOpenIssues acc) (stats w) in
  ∃ w',
    refreshOpenIssues withGitHub sb w = (Ok tt, w')
    ∧ stats w' = s2
    ∧ client w' = clientAfter withGitHub repos (client w)
    ∧ select isCommit (since w w') = [SetStats s2]
    ∧ toasts (since w w') =
        (if bool_decide (0 < length (failedRepos acc))%nat
         then [warningToast (failedRepos acc)] else [])
    ∧ pacing (since w w') = expectedPacing 2 (length repos) 0.
Proof.
  intros Hsb Hdata acc s2.
  destruct (refreshOpenIssues_run withGitHub sb repos w Hsb Hdata)
    as (J & c & E & Hp & Ht & Hs).
  eexists. split; [exact E|]. cbn [stats client].
  split; [done|]. split; [done|].
  erewrite since_app by (cbn [journal]; reflexivity).
  fold acc s2.
  change (?x :: J ++ ?y :: ?z ++ ?u) with ([x] ++ J ++ [y] ++ z ++ u).
  rewrite !select_app, !toasts_app, !pacing_app, Hs, Ht, Hp.
  rewrite toasts_warning, select_isCommit_warning, pacing_warning. cbn.
  by rewrite !app_nil_r.
Qed.

(** C2.  For every work list of size N and every batch size B > 0, one run
    of the aggregation loop terminates, executes exactly ⌈N/B⌉ batches and
    suspends for the inter-batch delay exactly ⌈N/B⌉ - 1 times: the batches
    are the slices [k*B, k*B + B) for k < ⌈N/B⌉, in order, and one delay of
    1000 ms stands between every two consecutive batches, so that the delay
    runs after each batch except the last.  The counts are natural numbers:
    the empty list has no batch and no delay, and a non-empty list has one
    delay less than it has batches.

    The batches are executed: the run attempts every item once, in list
    order, so that its accumulators are those of the outcomes of the items
    and the client is left as these attempts leave it.  The delays suspend
    the run: it goes through one suspension per item and one per delay, a
    batch started at clock t is followed by its delay at t + B, and the batch
    after a delay starts one suspension after the delay, never at the clock
    of the delay itself. *)
Theorem C2_batches_and_delays verbose (B : nat) repos (w : World Σ) :
  (0 < B)%nat →
  ∃ acc w',
    aggregate withGitHub verbose B repos w = (Ok acc, w')
    ∧ pacing (since w w') = expectedPacing B (length repos) 0
    ∧ length (select isBatch (since w w')) = ceilDiv (length repos) B
    ∧ length (select isDelay (since w w')) = (ceilDiv (length repos) B - 1)%nat
    ∧ (repos ≠ [] →
       S (length (select isDelay (since w w'))) = length (select isBatch (since w w')))
    ∧ acc = result withGitHub repos (client w)
    ∧ client w' = clientAfter withGitHub repos (client w)
    ∧ clock w' = (clock w + length repos + (ceilDiv (length repos) B - 1))%nat
    ∧ timeline (since w w') = expectedTimeline (ceilDiv (length repos) B) B 0 (clock w)
    ∧ (∀ k t ms, timeline (since w w') !! k = Some (t, inr ms) →
         ∃ a, timeline (since w w') !! S k = Some (S t, inl a)).
Proof.
  intros HB.
  destruct (LoopRuns.aggregate_run withGitHub verbose B repos w HB)
    as (J & E & Hp & _).
  pose proof (LoopRuns.aggregate_timeline withGitHub verbose B repos w HB) as Ht.
  rewrite E in Ht. cbn [snd] in Ht.
  eexists _, _. split; [exact E|].
  rewrite Ht. rewrite (since_app _ _ J) by done.
  rewrite select_isBatch_pacing, select_isDelay_pacing, Hp.
  rewrite expectedPacing_batches, expectedPacing_delays, length_replicate.
  split_and!; try done.
  - intros Hne. assert (0 < length repos)%nat by (destruct repos; [done|cbn; lia]).
    pose proof (ceilDiv_pos (length repos) B HB). lia.
  - intros k t ms. apply LoopRuns.expectedTimeline_delay.
Qed.

Lemma sumCounts_resolved (counts : list Z) :
  sumCounts ((λ c, inr (Some c)) <$> counts) = foldr Z.add 0 counts.
Proof.
  unfold sumCounts. induction counts as [|c counts IH]; [done|].
  cbn. by rewrite IH.
Qed.

Lemma failedIds_resolved repos (counts : list Z) :
  failedIds repos ((λ c, inr (Some c)) <$> counts) = [].
Proof.
  unfold failedIds. revert counts.
  induction repos as [|r repos IH]; intros [|c counts]; cbn; by rewrite ?IH.
Qed.

(** C4.  For every run in which every item's remote call succeeds (the
    outcomes of the items are the counts [counts], one per item), the failed
    list the run ends with is empty and its total is the sum of the counts;
    [fetchStats] commits this sum as [openIssues] and shows no toast. *)
Theorem C4_all_succeed verbose sb repos counts (w : World Σ) :
  outcomes withGitHub repos (client w) = (λ c, inr (Some c)) <$> counts →
  (∃ acc w1, aggregate withGitHub verbose 2 repos w = (Ok acc, w1)
             ∧ failedRepos acc = []
             ∧ totalOpenIssues acc = foldr Z.add 0 counts)
  ∧ (healthy sb → data (repositoriesQuery sb) = Some repos →
     ∃ w', fetchStats withGitHub None sb w = (Ok tt, w')
           ∧ openIssues (stats w') = foldr Z.add 0 counts
           ∧ toasts (since w w') = []).
Proof.
  intros Hos.
  assert (result withGitHub repos (client w) = mkAcc (foldr Z.add 0 counts) []) as Hres.
  { by rewrite result_summary, Hos, sumCounts_resolved, failedIds_resolved. }
  split.
  - destruct (aggregate_spec withGitHub verbose 2 repos w) as (J & c & E & _); [lia|].
    rewrite Hres in E. by eexists _, _.
  - intros Hsb Hdata.
    destruct (fetchStats_completed sb repos w Hsb Hdata)
      as (w' & E & Hstats & _ & _ & Ht & _).
    exists w'. split; [exact E|]. by rewrite Hstats, Ht, Hres.
Qed.

Lemma warning_cases (failed : list string) :
  (if bool_decide (0 < length failed)%nat then [warningToast failed] else [])
  = match failed with [] => [] | _ :: _ => [warningToast failed] end.
Proof. destruct failed; [done|]. rewrite bool_decide_true; [done|cbn; lia]. Qed.

(** C5.  For every completed run, of [fetchStats] as of
    [refreshStats.openIssues]: when the failed list is empty no toast is
    shown; when it is not, exactly one toast is shown, the warning whose
    description names all failed identifiers joined by [", "] - never one
    toast per failed item. *)
Theorem C5_one_consolidated_warning sb repos (w : World Σ) :
  healthy sb → data (repositoriesQuery sb) = Some repos →
  ∃ failed,
    let shown := match failed with [] => [] | _ :: _ => [warningToast failed] end in
    (∀ verbose, ∃ acc w1, aggregate withGitHub verbose 2 repos w = (Ok acc, w1)
                          ∧ failedRepos acc = failed)
    ∧ (∃ w', fetchStats withGitHub None sb w = (Ok tt, w') ∧ toasts (since w w') = shown)
    ∧ (∃ w', refreshOpenIssues withGitHub sb w = (Ok tt, w')
             ∧ toasts (since w w') = shown)
    ∧ description (warningToast failed)
      = ("Failed to fetch issues for: " +:+ String.concat ", " failed +:+
         ". Try clicking the refresh button on the Open Issues card to get the correct total.")%string.
Proof.
  intros Hsb Hdata. exists (failedRepos (result withGitHub repos (client w))).
  cbv zeta. split_and!; [| | |done].
  - intros verbose.
    destruct (aggregate_spec withGitHub verbose 2 repos w) as (J & c & E & _); [lia|].
    by eexists _, _.
  - destruct (fetchStats_completed sb repos w Hsb Hdata) as (w' & E & _ & _ & _ & Ht & _).
    exists w'. split; [done|]. rewrite Ht. apply warning_cases.
  - destruct Hsb as (_ & _ & _ & Hq).
    destruct (refreshOpenIssues_completed sb repos w Hq Hdata) as (w' & E & _ & _ & _ & Ht & _).
    exists w'. split; [done|]. rewrite Ht. apply warning_cases.
Qed.

Lemma omap_lookup_order {A B} (f : A → option B) (l : list A) i j x y a b :
  (i < j)%nat → l !! i = Some x → l !! j = Some y → f x = Some a → f y = Some b →
  ∃ p q, (p < q)%nat ∧ omap f l !! p = Some a ∧ omap f l !! q = Some b.
Proof.
  intros Hij Hi Hj Hx Hy.
  rewrite <-(take_drop_middle l j y Hj), omap_app. cbn [omap list_omap]. rewrite Hy.
  assert (take j l !! i = Some x) as Hti by (by rewrite lookup_take_lt).
  assert (a ∈ omap f (take j l)) as Ha.
  { apply list_elem_of_omap. exists x. split; [|done]. by eapply list_elem_of_lookup_2. }
  apply list_elem_of_lookup in Ha as [p Hp].
  exists p, (length (omap f (take j l))). split_and!.
  - by eapply lookup_lt_Some.
  - by apply lookup_app_l_Some.
  - by rewrite list_lookup_middle.
Qed.

(** C6.  For every run and every two positions i < j of the work list whose
    items are both rejected (with whatever error, so also with an error other
    than Unauthorized), the identifier of item i stands before the identifier
    of item j in the failed list of the run. *)
Theorem C6_failed_in_list_order verbose (B : nat) repos (w : World Σ) i j ri rj ei ej :
  (0 < B)%nat → (i < j)%nat →
  repos !! i = Some ri → repos !! j = Some rj →
  outcomes withGitHub repos (client w) !! i = Some (inl ei) →
  outcomes withGitHub repos (client w) !! j = Some (inl ej) →
  ∃ acc w' p q,
    aggregate withGitHub verbose B repos w = (Ok acc, w')
    ∧ (p < q)%nat
    ∧ failedRepos acc !! p = Some (repoId ri)
    ∧ failedRepos acc !! q = Some (repoId rj).
Proof.
  intros HB Hij Hri Hrj Hoi Hoj.
  destruct (aggregate_spec withGitHub verbose B repos w HB) as (J & c & E & _).
  rewrite result_summary in E. cbn in E.
  destruct (omap_lookup_order
              (λ ro : Repo * Outcome, if rejected ro.2 then Some (repoId ro.1) else None)
              (zip repos (outcomes withGitHub repos (client w)))
              i j (ri, inl ei) (rj, inl ej) (repoId ri) (repoId rj))
    as (p & q & Hpq & Hp & Hq); try done.
  1,2: apply lookup_zip_with_Some; eauto.
  eexists _, _, p, q. split; [exact E|]. done.
Qed.

Lemma tally_skip_null repos : ∀ acc (os : list Outcome) k,
  os !! k = Some (inr None) →
  tally acc repos os = tally acc (delete k repos) (delete k os).
Proof.
  induction repos as [|r repos IH]; intros acc [|o os] [|k] Hk; simplify_eq/=; try done.
  by apply IH.
Qed.

(** C10.  If [withGitHub] resolves to [null] for the item at position k, the
    run ends with the accumulators it would have without that item: the item
    adds nothing to the total and is not recorded in the failed list. *)
Theorem C10_null_is_skipped verbose (B : nat) repos (w : World Σ) k :
  (0 < B)%nat →
  outcomes withGitHub repos (client w) !! k = Some (inr None) →
  let os := outcomes withGitHub repos (client w) in
  ∃ acc w',
    aggregate withGitHub verbose B repos w = (Ok acc, w')
    ∧ acc = tally (mkAcc 0 []) (delete k repos) (delete k os)
    ∧ totalOpenIssues acc = sumCounts (delete k os)
    ∧ failedRepos acc = failedIds (delete k repos) (delete k os).
Proof.
  intros HB Hk os.
  destruct (aggregate_spec withGitHub verbose B repos w HB) as (J & c & E & _).
  eexists _, _. split; [exact E|].
  unfold result. fold os. rewrite (tally_skip_null repos _ os k Hk).
  split; [done|].
  rewrite tally_summary; [done|].
  assert (is_Some (os !! k)) as Hos by eauto.
  assert (is_Some (repos !! k)) as Hrepos.
  { apply lookup_lt_is_Some. rewrite <-(outcomes_length withGitHub repos (client w)).
    by apply lookup_lt_is_Some. }
  rewrite !length_delete by done. unfold os. by rewrite outcomes_length.
Qed.

(** C7.  Committing an aggregated total changes [openIssues] alone and leaves
    [trackedRepos], [analyzedRepos] and [activeAutomations] as they were;
    the updates of the two realtime handlers leave [openIssues] (and each
    other's fields) as they were. *)
Theorem C7_scoped_updates acc sb (w : World Σ) :
  let committed := stats (report acc w).2 in
  let afterRepos := stats (onRepositoriesChange sb w).2 in
  let afterJobs := stats (onJobsChange sb w).2 in
  (openIssues committed = totalOpenIssues acc
   ∧ trackedRepos committed = trackedRepos (stats w)
   ∧ analyzedRepos committed = analyzedRepos (stats w)
   ∧ activeAutomations committed = activeAutomations (stats w))
  ∧ (openIssues afterRepos = openIssues (stats w)
     ∧ activeAutomations afterRepos = activeAutomations (stats w))
  ∧ (openIssues afterJobs = openIssues (stats w)
     ∧ trackedRepos afterJobs = trackedRepos (stats w)
     ∧ analyzedRepos afterJobs = analyzedRepos (stats w)).
Proof. cbv zeta. rewrite report_eq. done. Qed.

(** C8.  Committing the same result twice is idempotent: the view state
    after the second commit is the view state after the first. *)
Theorem C8_commit_idempotent acc (w : World Σ) :
  stats (report acc (report acc w).2).2 = stats (report acc w).2.
Proof. by rewrite !report_eq. Qed.

(** The guard of [fetchStats]: whatever the answers of the database and of
    [withGitHub], and whenever the effect is torn down, the run updates the
    view state and shows toasts only at clocks at which the effect is alive,
    the liveness flag being read at the very clock of the update. *)
Lemma fetchStats_nothing_visible_after_teardown teardown sb (w : World Σ) t e :
  (t, e) ∈ since w (fetchStats withGitHub teardown sb w).2 →
  isVisible e = true →
  aliveAt teardown t = true.
Proof.
  destruct (fetchStats_guarded withGitHub teardown sb w) as (J & E & HJ).
  rewrite (since_app _ _ J E). intros Hin.
  rewrite Forall_forall in HJ. by apply (HJ _ Hin).
Qed.

(** [refreshStats.openIssues] has no such guard: with a successful query it
    always commits. *)
Lemma refreshOpenIssues_always_commits sb repos (w : World Σ) :
  dataError (repositoriesQuery sb) = None → data (repositoriesQuery sb) = Some repos →
  ∃ w' s, refreshOpenIssues withGitHub sb w = (Ok tt, w')
          ∧ select isCommit (since w w') = [SetStats s]
          ∧ stats w' = s.
Proof.
  intros Hq Hdata.
  destruct (refreshOpenIssues_completed sb repos w Hq Hdata) as (w' & E & Hs & _ & Hc & _).
  eexists w', _. split; [exact E|]. split; [exact Hc|exact Hs].
Qed.
End Runs.

(** C1, as the code has it.  An answer with status 401 makes [request] clear
    the cached credential once and throw; a run in which the call of an item
    is rejected (with this or with any other error) is not aborted: every
    item is attempted, the total of the items that resolved to a count is
    committed, the identifier of the rejected item is in the failed list,
    and the run ends with the one warning that names the failed items. *)
Theorem C1_unauthorized_is_a_per_item_failure :
  (∀ (Json : Type) (this : GitHub.GitHubClientImpl) path (s : GitHub.State (Json := Json)) l r,
     GitHub.limiter this = Some l →
     GitHub.network s ("https://api.github.com" +:+ path)%string = Some r →
     GitHub.status r = 401 →
     ∃ s', GitHub.request this path s = (inl TokenInvalid, s')
           ∧ GitHub.credential s' = None
           ∧ GitHub.clears (GitHub.newEvents s s') = 1%nat)
  ∧ (∀ (Σ : Type) (withGitHub : ∀ A : Type, (GitHubClient Σ → C Σ A) → C Σ (option A))
       sb repos (w : World Σ) k repo e,
     healthy sb → data (repositoriesQuery sb) = Some repos →
     repos !! k = Some repo →
     outcomes withGitHub repos (client w) !! k = Some (inl e) →
     let os := outcomes withGitHub repos (client w) in
     ∃ w', fetchStats withGitHub None sb w = (Ok tt, w')
           ∧ client w' = clientAfter withGitHub repos (client w)
           ∧ openIssues (stats w') = sumCounts os
           ∧ repoId repo ∈ failedIds repos os
           ∧ toasts (since w w') = [warningToast (failedIds repos os)]).
Proof.
  split.
  - intros Json this path s l r Hl Hr H401.
    rewrite (GitHubFacts.request_unauthorized this path s l r Hl Hr H401).
    eexists. split; [done|]. split; [done|].
    erewrite GitHubFacts.newEvents_app by (cbn [GitHub.events]; reflexivity). done.
  - intros Σ withGitHub sb repos w k repo e Hsb Hdata Hrepo Hk os.
    destruct (fetchStats_completed withGitHub sb repos w Hsb Hdata)
      as (w' & E & Hstats & Hclient & _ & Ht & _).
    rewrite result_summary in Hstats, Ht. cbn in Hstats, Ht. fold os in Hstats, Ht.
    assert (repoId repo ∈ failedIds repos os) as Hin.
    { unfold failedIds. apply list_elem_of_omap. exists (repo, inl e). split; [|done].
      eapply list_elem_of_lookup_2. apply lookup_zip_with_Some. eauto. }
    exists w'. split_and!; try done.
    + by rewrite Hstats.
    + rewrite Ht. destruct (failedIds repos os); [by apply not_elem_of_nil in Hin|].
      rewrite bool_decide_true; [done|cbn; lia].
Qed.

Section Limiter.
Context {Json : Type}.
Variable URLSearchParams : list (string * string) → string.

(** The requests of a client.  Every request of a client first withdraws
    exactly one token from the client's rate limiter and then issues its one
    network call, and all clients constructed for the same user identity hold
    the same limiter, whatever calls are made in between: the traffic of
    every method call of every such client is one withdrawal from that
    limiter followed by one fetch. *)
Lemma client_requests_go_through_the_shared_limiter
    tok userId (s : GitHub.State (Json := Json)) this s1 :
  GitHub.constructor tok userId s = (inr this, s1) →
  ∃ l,
    GitHub.limiter this = Some l
    ∧ (∀ calls tok2, ∃ this2 s2,
         GitHub.constructor tok2 userId
           (foldl (GitHub.perform URLSearchParams) s1 calls) = (inr this2, s2)
         ∧ GitHub.limiter this2 = Some l)
    ∧ (∀ (client : GitHub.GitHubClientImpl) m (s' : GitHub.State (Json := Json)),
         GitHub.limiter client = Some l →
         ∃ path,
           GitHub.traffic
             (GitHub.newEvents s' (GitHub.invoke URLSearchParams client m s').2)
           = [inl (l, 1); inr ("https://api.github.com" +:+ path)%string]).
Proof.
  intros Hc.
  destruct (GitHubFacts.constructor_limiter _ _ _ _ _ Hc) as ([l Hl] & _ & _).
  exists l. split; [done|]. split.
  - intros calls tok2.
    destruct (GitHubFacts.limiter_shared URLSearchParams tok tok2 userId s this s1 calls Hc)
      as (this2 & s2 & E & Hsame & _).
    exists this2, s2. split; [done|]. by rewrite Hsame.
  - intros client m s' Hclient. by apply GitHubFacts.invoke_traffic.
Qed.
End Limiter.

(** C9, at a request that bypasses the limiter.  The user u1 has a client
    and a limiter, and the network answers.  The method [getRepository] of
    the client withdraws one token from the limiter of u1 and then fetches
    [/repos/a/r1]; the exported module-level [getRepository] (lines 180-209)
    sends the same request, to the same URL with the same credential, and
    withdraws nothing: no limiter is involved, and the limiter of u1 does not
    see the request. *)
Theorem C9_module_level_getRepository_bypasses_the_limiter :
  let s := MoreExamples.answering (Wired.okResponse 3) in
  let url := "https://api.github.com/repos/a/r1"%string in
  let this := GitHub.mkClient "t0" (Some 0%nat) in
  let viaClient := GitHub.getRepository this "a" "r1" s in
  let direct := GitHub.getRepositoryDirect (inr "t0"%string) "a" "r1" s in
  GitHub.userLimiters s !! "u1"%string = Some 0%nat
  ∧ GitHub.constructor "t0" "u1" s = (inr this, s)
  ∧ viaClient.1 = inr (mkIssueSearch 3)
  ∧ GitHub.traffic (GitHub.newEvents s viaClient.2) = [inl (0%nat, 1); inr url]
  ∧ GitHub.Fetch url "Bearer t0" ∈ GitHub.newEvents s viaClient.2
  ∧ direct.1 = inr (mkIssueSearch 3)
  ∧ GitHub.newEvents s direct.2 = [GitHub.Fetch url "Bearer t0"]
  ∧ GitHub.traffic (GitHub.newEvents s direct.2) = [inr url].
Proof.
  cbv zeta. split_and!; try reflexivity.
  vm_compute. apply list_elem_of_lookup. by exists 3%nat.
Qed.

(** C3, at a run that is torn down during its first suspension.  The run of
    [refreshStats.openIssues] writes the total into the view state at clock
    5, when the effect is no longer alive; the run of [fetchStats] over the
    same items, torn down at the same moment, writes nothing. *)
Theorem C3_refresh_commits_after_teardown :
  let w0 := Scripted.world0 Examples.transientFailure in
  let refreshed := refreshOpenIssues Scripted.withGitHub Examples.sb3 w0 in
  let loaded := fetchStats Scripted.withGitHub (Some 1%nat) Examples.sb3 w0 in
  aliveAt (Some 1%nat) 5 = false
  ∧ refreshed.1 = Ok tt
  ∧ journal refreshed.2 !! 5%nat = Some (5%nat, SetStats (mkStats 8 0 0 0))
  ∧ journal refreshed.2 !! 6%nat = Some (5%nat, ShowToast (warningToast ["a/r2"%string]))
  ∧ stats refreshed.2 = mkStats 8 0 0 0
  ∧ loaded.1 = Ok tt
  ∧ select isVisible (journal loaded.2) = []
  ∧ stats loaded.2 = stats w0.
Proof. vm_compute. by repeat split. Qed.

(** The scenario of the specification in which the second of three items
    is answered with a 401: the item's call is rejected, and still the run
    goes on to the third item and commits the total of the other two. *)
Lemma C1_counterexample :
  let withGitHub := Wired.withGitHub (inr "t0"%string) "u1" in
  let w0 := Wired.world0 Examples.unauthorizedSecond in
  let run := fetchStats withGitHub None Examples.sb3 w0 in
  outcomes withGitHub Examples.repos3 (client w0) !! 1%nat = Some (inl TokenInvalid)
  ∧ run.1 = Ok tt
  ∧ select isCommit (since w0 run.2) ≠ []
  ∧ openIssues (stats run.2) = 8
  ∧ GitHub.traffic (GitHub.events (client run.2))
    = [inl (0%nat, 1); inr (Wired.issuesUrl Examples.r1);
       inl (0%nat, 1); inr (Wired.issuesUrl Examples.r2);
       inl (0%nat, 1); inr (Wired.issuesUrl Examples.r3)].
Proof. cbv zeta. split_and!; by vm_compute. Qed.

(** The first scenario of the specification: counts 3 and 5 and a transient
    failure for the second of three items give the total 8, one warning that
    names a/r2, two batches and one delay between them. *)
Example scenario_transient_failure :
  let w0 := Scripted.world0 Examples.transientFailure in
  let run := fetchStats Scripted.withGitHub None Examples.sb3 w0 in
  run.1 = Ok tt
  ∧ stats run.2 = mkStats 8 3 2 0
  ∧ toasts (journal run.2) = [warningToast ["a/r2"%string]]
  ∧ pacing (journal run.2) = [inl (0, 2)%nat; inr 1000; inl (2, 4)%nat].
Proof. vm_compute. by repeat split. Qed.

(** *** The properties at the scenarios *)

Lemma C1_witness :
  (∃ s', GitHub.request (GitHub.mkClient "t0" (Some 0%nat))
           (Wired.issuesPath "a" "r2" (mkIssueQuery "open" 1))
           (client (Wired.world0 Examples.unauthorizedSecond))
         = (inl TokenInvalid, s')
         ∧ GitHub.credential s' = None
         ∧ GitHub.clears
             (GitHub.newEvents (client (Wired.world0 Examples.unauthorizedSecond)) s')
           = 1%nat)
  ∧ (∃ w', fetchStats Scripted.withGitHub None Examples.sb3
             (Scripted.world0 Examples.twoFailures) = (Ok tt, w')
           ∧ client w' = clientAfter Scripted.withGitHub Examples.repos3 Examples.twoFailures
           ∧ openIssues (stats w') = 1
           ∧ repoId Examples.r3 ∈ ["a/r1"; "a/r3"]%string
           ∧ toasts (since (Scripted.world0 Examples.twoFailures) w')
             = [warningToast ["a/r1"; "a/r3"]%string]).
Proof.
  split.
  - apply (proj1 C1_unauthorized_is_a_per_item_failure IssueSearch
             (GitHub.mkClient "t0" (Some 0%nat))
             (Wired.issuesPath "a" "r2" (mkIssueQuery "open" 1))
             (client (Wired.world0 Examples.unauthorizedSecond)) 0%nat
             (Wired.errorResponse 401 "Unauthorized")).
    + reflexivity.
    + vm_compute; reflexivity.
    + reflexivity.
  - apply (proj2 C1_unauthorized_is_a_per_item_failure (list Scripted.Answer)
             Scripted.withGitHub Examples.sb3 Examples.repos3
             (Scripted.world0 Examples.twoFailures) 2%nat Examples.r3 RateLimitExceeded).
    + repeat split; reflexivity.
    + reflexivity.
    + reflexivity.
    + reflexivity.
Defined.

Lemma C2_witness :
  ∃ acc w',
    aggregate Scripted.withGitHub false 2 Examples.repos3
      (Scripted.world0 Examples.transientFailure) = (Ok acc, w')
    ∧ pacing (since (Scripted.world0 Examples.transientFailure) w')
      = [inl (0, 2)%nat; inr 1000; inl (2, 4)%nat]
    ∧ length (select isBatch (since (Scripted.world0 Examples.transientFailure) w')) = 2%nat
    ∧ length (select isDelay (since (Scripted.world0 Examples.transientFailure) w')) = 1%nat
    ∧ acc = mkAcc 8 ["a/r2"%string]
    ∧ client w' = []
    ∧ clock w' = 4%nat
    ∧ timeline (since (Scripted.world0 Examples.transientFailure) w')
      = [(0%nat, inl (0, 2)%nat); (2%nat, inr 1000); (3%nat, inl (2, 4)%nat)].
Proof.
  destruct (C2_batches_and_delays Scripted.withGitHub false 2 Examples.repos3
              (Scripted.world0 Examples.transientFailure))
    as (acc & w' & E & Hp & Hb & Hd & _ & Hacc & Hcl & Hck & Ht & _).
  - lia.
  - exists acc, w'.
    split_and!; [exact E|exact Hp|exact Hb|exact Hd|exact Hacc|exact Hcl|exact Hck|exact Ht].
Defined.

Lemma C4_witness :
  (∃ acc w1, aggregate Scripted.withGitHub false 2 Examples.repos3
               (Scripted.world0 Examples.allSucceed) = (Ok acc, w1)
             ∧ failedRepos acc = []
             ∧ totalOpenIssues acc = 12)
  ∧ ∃ w', fetchStats Scripted.withGitHub None Examples.sb3
            (Scripted.world0 Examples.allSucceed) = (Ok tt, w')
          ∧ openIssues (stats w') = 12
          ∧ toasts (since (Scripted.world0 Examples.allSucceed) w') = [].
Proof.
  destruct (C4_all_succeed Scripted.withGitHub false Examples.sb3 Examples.repos3
              [3; 4; 5] (Scripted.world0 Examples.allSucceed)) as [Hloop Hrun].
  - reflexivity.
  - split; [exact Hloop|]. apply Hrun.
    + repeat split; reflexivity.
    + reflexivity.
Defined.

Lemma C5_witness :
  ∃ failed,
    (∀ verbose, ∃ acc w1,
        aggregate Scripted.withGitHub verbose 2 Examples.repos3
          (Scripted.world0 Examples.twoFailures) = (Ok acc, w1)
        ∧ failedRepos acc = failed)
    ∧ (∃ w', fetchStats Scripted.withGitHub None Examples.sb3
               (Scripted.world0 Examples.twoFailures) = (Ok tt, w')
             ∧ toasts (since (Scripted.world0 Examples.twoFailures) w')
               = match failed with [] => [] | _ :: _ => [warningToast failed] end)
    ∧ (∃ w', refreshOpenIssues Scripted.withGitHub Examples.sb3
               (Scripted.world0 Examples.twoFailures) = (Ok tt, w')
             ∧ toasts (since (Scripted.world0 Examples.twoFailures) w')
               = match failed with [] => [] | _ :: _ => [warningToast failed] end)
    ∧ description (warningToast failed)
      = ("Failed to fetch issues for: " +:+ String.concat ", " failed +:+
         ". Try clicking the refresh button on the Open Issues card to get the correct total.")%string.
Proof.
  apply (C5_one_consolidated_warning Scripted.withGitHub Examples.sb3 Examples.repos3
           (Scripted.world0 Examples.twoFailures)).
  - repeat split; reflexivity.
  - reflexivity.
Defined.

Lemma C6_witness :
  ∃ acc w' p q,
    aggregate Scripted.withGitHub false 2 Examples.repos3
      (Scripted.world0 Examples.twoFailures) = (Ok acc, w')
    ∧ (p < q)%nat
    ∧ failedRepos acc !! p = Some "a/r1"%string
    ∧ failedRepos acc !! q = Some "a/r3"%string.
Proof.
  apply (C6_failed_in_list_order Scripted.withGitHub false 2 Examples.repos3
           (Scripted.world0 Examples.twoFailures) 0%nat 2%nat Examples.r1 Examples.r3
           (ApiError 500 "Internal Server Error") RateLimitExceeded).
  - lia.
  - lia.
  - reflexivity.
  - reflexivity.
  - reflexivity.
  - reflexivity.
Defined.

Lemma C10_witness :
  ∃ acc w',
    aggregate Scripted.withGitHub false 2 Examples.repos3
      (Scripted.world0 Examples.nullInTheMiddle) = (Ok acc, w')
    ∧ acc = mkAcc 8 []
    ∧ totalOpenIssues acc = 8
    ∧ failedRepos acc = [].
Proof.
  apply (C10_null_is_skipped Scripted.withGitHub false 2 Examples.repos3
           (Scripted.world0 Examples.nullInTheMiddle) 1%nat).
  - lia.
  - reflexivity.
Defined.

End Properties.

(** * Further properties of [lib/github.ts] *)

Module ClientProperties.
Import GitHub Invariants.

Section Facts.
Context {Json : Type}.
Variable URLSearchParams : list (string * string) → string.
Abbreviation State := (State (Json := Json)).

(** *** The answers of [request] *)

(** The result of [request], by the answer of the network. *)
Lemma request_result this path (s : State) l :
  limiter this = Some l →
  (request this path s).1 =
  match network s ("https://api.github.com" +:+ path)%string with
  | None => inl NetworkError
  | Some r =>
      if ok r then match body r with inr j => inr j | inl m => inl (SyntaxError m) end
      else if bool_decide (status r = 401) then inl TokenInvalid
      else if bool_decide (status r = 403) && bool_decide (ratelimitRemaining r = Some "0"%string)
      then inl RateLimitExceeded
      else inl (ApiError (status r) (statusText r))
  end.
Proof.
  intros Hl. unfold request, removeTokens, fetch, clearToken, emit, json.
  rewrite Hl. unfold CM.bind, CM.modify, CM.gets, CM.throw, CM.ret. cbn.
  destruct (network s _) as [r|]; cbn; [|done].
  destruct (ok r); cbn; [by destruct (body r)|].
  case_bool_decide; cbn; [done|]. by destruct (_ && _).
Qed.

(** X1.  [request] resolves to a value exactly when the network answers with a
    status from 200 to 299 and a body that parses, and the value is the parsed
    body; it rejects with the parser's error exactly when the status is in
    that range and the body does not parse ([response.json()] is not
    guarded). *)
Theorem request_resolves_iff this path (s : State) l :
  limiter this = Some l →
  let result := (request this path s).1 in
  let answer := network s ("https://api.github.com" +:+ path)%string in
  (∀ j, result = inr j ↔ ∃ r, answer = Some r ∧ 200 ≤ status r ≤ 299 ∧ body r = inr j)
  ∧ (∀ m, result = inl (SyntaxError m)
          ↔ ∃ r, answer = Some r ∧ 200 ≤ status r ≤ 299 ∧ body r = inl m).
Proof.
  intros Hl. cbv zeta. rewrite (request_result this path s l Hl).
  destruct (network s _) as [r|].
  2: { split; intros x; (split; [done|by intros (?&?&?)]). }
  unfold ok. case_bool_decide as Hok.
  - split; intros x.
    + split.
      * destruct (body r) as [m|j'] eqn:Hb; [done|]. intros [= ->]. eauto.
      * intros (r' & [= <-] & _ & ->). done.
    + split.
      * destruct (body r) as [m|j'] eqn:Hb; [|done]. intros [= ->]. eauto.
      * intros (r' & [= <-] & _ & ->). done.
  - split; intros x.
    + split.
      * case_bool_decide; [done|]. by destruct (_ && _).
      * intros (r' & [= <-] & ? & _). done.
    + split.
      * case_bool_decide; [done|]. by destruct (_ && _).
      * intros (r' & [= <-] & ? & _). done.
Qed.

(** X2.  The rejections of [request], each by the answer that causes it: the
    invalid-token error exactly on status 401; the rate-limit error exactly on
    status 403 with the header [x-ratelimit-remaining] equal to ["0"]; the
    API error carrying the status and its text exactly on every other status
    outside 200-299 (a 403 with another header value included); the network
    error exactly when [fetch] itself rejects. *)
Theorem request_rejections this path (s : State) l :
  limiter this = Some l →
  let result := (request this path s).1 in
  let answer := network s ("https://api.github.com" +:+ path)%string in
  (result = inl TokenInvalid ↔ ∃ r, answer = Some r ∧ status r = 401)
  ∧ (result = inl RateLimitExceeded
     ↔ ∃ r, answer = Some r ∧ status r = 403 ∧ ratelimitRemaining r = Some "0"%string)
  ∧ (∀ st txt, result = inl (ApiError st txt)
     ↔ ∃ r, answer = Some r ∧ status r = st ∧ statusText r = txt
            ∧ ¬ 200 ≤ st ≤ 299 ∧ st ≠ 401
            ∧ ¬ (st = 403 ∧ ratelimitRemaining r = Some "0"%string))
  ∧ (result = inl NetworkError ↔ answer = None).
Proof.
  intros Hl. cbv zeta. rewrite (request_result this path s l Hl).
  destruct (network s _) as [r|].
  2: { split_and!.
       - split; [done|by intros (?&?&?)].
       - split; [done|by intros (?&?&?)].
       - intros st txt. split; [done|by intros (?&?&?)].
       - done. }
  unfold ok. case_bool_decide as Hok.
  { split_and!.
    - split; [by destruct (body r)|]. intros (r' & [= <-] & ?). lia.
    - split; [by destruct (body r)|]. intros (r' & [= <-] & ? & _). lia.
    - intros st txt. split; [by destruct (body r)|].
      intros (r' & [= <-] & <- & _ & ? & _). done.
    - split; [by destruct (body r)|done]. }
  case_bool_decide as H401.
  { split_and!.
    - split; [eauto|done].
    - split; [done|]. intros (r' & [= <-] & ? & _). lia.
    - intros st txt. split; [done|]. intros (r' & [= <-] & <- & _ & _ & ? & _). done.
    - done. }
  destruct (bool_decide (status r = 403)) eqn:H403;
    destruct (bool_decide (ratelimitRemaining r = Some "0"%string)) eqn:Hh; cbn.
  all: try apply bool_decide_eq_true in H403; try apply bool_decide_eq_false in H403.
  all: try apply bool_decide_eq_true in Hh; try apply bool_decide_eq_false in Hh.
  all: split_and!; try done.
  all: try (split; [done|intros (r' & [= <-] & ?); tauto]).
  all: try (split; [eauto|done]).
  all: intros st txt; split;
    [intros [= <- <-]; exists r; tauto
    |intros (r' & [= <-] & <- & <- & ?); try done; tauto].
Qed.

(** X3.  A request whose answer is not a 401 leaves the cached credential as it
    is and never calls [clearToken], whatever else goes wrong. *)
Theorem request_keeps_credential this path (s : State) :
  (∀ r, network s ("https://api.github.com" +:+ path)%string = Some r → status r ≠ 401) →
  credential (request this path s).2 = credential s
  ∧ clears (newEvents s (request this path s).2) = 0%nat.
Proof.
  intros Hno. unfold request, removeTokens, fetch, clearToken, emit, json.
  unfold CM.bind, CM.modify, CM.gets, CM.throw, CM.ret.
  destruct (limiter this) as [l|]; cbn.
  2: { unfold newEvents; cbn. by rewrite drop_app_length. }
  destruct (network s _) as [r|] eqn:Hr; cbn.
  2: { unfold newEvents; cbn. by rewrite <-!app_assoc, drop_app_length. }
  specialize (Hno r eq_refl).
  destruct (ok r); cbn.
  - destruct (body r); cbn; unfold newEvents; cbn;
      by rewrite <-!app_assoc, drop_app_length.
  - rewrite bool_decide_false by done. destruct (_ && _); cbn; unfold newEvents; cbn;
      by rewrite <-!app_assoc, drop_app_length.
Qed.

(** *** The registry *)

Lemma create_eq (tok : Error + string) userId (s : State) :
  create tok userId s =
  match tok with
  | inr token => constructor token userId s
  | inl e =>
      (inl e, mkState (userLimiters s) (created s) None (network s)
                (events s ++ [ConsoleError "[GitHubClient] Failed to create client:" e;
                              ClearToken; Navigate "/auth/callback"]))
  end.
Proof.
  unfold create, CM.catch. destruct tok as [e|token].
  - unfold clearToken, emit, CM.bind, CM.modify, CM.throw. cbn. by rewrite <-!app_assoc.
  - rewrite GitHubFacts.constructor_eq. by destruct (userLimiters s !! userId).
Qed.

Lemma direct_registry tok owner repo (s : State) :
  userLimiters (getRepositoryDirect tok owner repo s).2 = userLimiters s
  ∧ created (getRepositoryDirect tok owner repo s).2 = created s.
Proof.
  unfold getRepositoryDirect, CM.catch, fetch, clearToken, emit, json.
  unfold CM.bind, CM.modify, CM.gets, CM.throw, CM.ret.
  destruct tok as [e|token]; cbn.
  - by destruct (_ && _).
  - destruct (network s _) as [r|]; cbn; [|done].
    destruct (ok r); cbn.
    + by destruct (body r).
    + case_bool_decide; cbn; [done|]. by destruct (includes _ _).
Qed.

Lemma request_created this path (s : State) :
  created (request this path s).2 = created s.
Proof.
  unfold request, removeTokens, fetch, clearToken, emit, json.
  unfold CM.bind, CM.modify, CM.gets, CM.throw, CM.ret. cbn.
  destruct (limiter this); cbn; [|done].
  destruct (network s _) as [r|]; cbn; [|done].
  destruct (ok r); cbn; [by destruct (body r)|].
  case_bool_decide; cbn; [done|]. by destruct (_ && _).
Qed.

Lemma invoke_created this m (s : State) :
  created (invoke URLSearchParams this m s).2 = created s.
Proof.
  destruct m; cbn [invoke];
    unfold getRepository, searchRepositories, listRepositories, listRepositoryIssues;
    rewrite ?GitHubFacts.bind_emit; by rewrite request_created.
Qed.

Lemma separated_insert (s : State) userId :
  separated s → userLimiters s !! userId = None →
  separated (mkState (<[userId := created s]> (userLimiters s)) (S (created s))
                     (credential s) (network s)
                     (events s ++ [NewRateLimiter (created s) 5000 "hour"])).
Proof.
  intros (Hsize & Hlt & Hinj) Hnone. split_and!; cbn.
  - rewrite map_size_insert_None by done. by rewrite Hsize.
  - intros u l. destruct (decide (userId = u)) as [<-|Hne].
    + rewrite lookup_insert_eq. intros [= <-]. lia.
    + rewrite lookup_insert_ne by done. intros Hl. specialize (Hlt u l Hl). lia.
  - intros u1 u2 l.
    destruct (decide (userId = u1)) as [<-|Hne1];
      destruct (decide (userId = u2)) as [<-|Hne2];
      rewrite ?lookup_insert_eq, ?lookup_insert_ne by done; try done.
    + intros [= <-] Hl. specialize (Hlt _ _ Hl). lia.
    + intros Hl [= <-]. specialize (Hlt _ _ Hl). lia.
    + apply Hinj.
Qed.

(** X4.  The registry of limiters stays in order under every call of the
    module (constructing a client, a method call, the module-level
    [getRepository]): as many limiters were created as the registry has
    entries, and no two user ids share a limiter. *)
Theorem separated_perform (s : State) c :
  separated s → separated (perform URLSearchParams s c).
Proof.
  intros Hs. destruct c as [tok userId|this m|tok owner repo]; cbn [perform].
  - unfold getGitHubClient. rewrite create_eq. destruct tok as [e|token]; [done|].
    rewrite GitHubFacts.constructor_eq.
    destruct (userLimiters s !! userId) as [l|] eqn:E; [done|].
    by apply separated_insert.
  - unfold separated. by rewrite GitHubFacts.invoke_userLimiters, invoke_created.
  - unfold separated. destruct (direct_registry tok owner repo s) as [-> ->]. done.
Qed.

Lemma separated_calls (s : State) calls :
  separated s → separated (foldl (perform URLSearchParams) s calls).
Proof.
  revert s. induction calls as [|c calls IH]; intros s Hs; [done|].
  cbn. apply IH. by apply separated_perform.
Qed.

(** X5.  Clients constructed for different user ids hold different limiters,
    whatever calls are made between the two constructions. *)
Theorem limiters_per_user tok1 tok2 u1 u2 (s : State) this1 s1 calls this2 s2 :
  separated s →
  constructor tok1 u1 s = (inr this1, s1) →
  constructor tok2 u2 (foldl (perform URLSearchParams) s1 calls) = (inr this2, s2) →
  u1 ≠ u2 →
  limiter this1 ≠ limiter this2.
Proof.
  intros Hs H1 H2 Hne Heq.
  assert (s1 = perform URLSearchParams s (Construct (inr tok1) u1)) as Es1.
  { cbn. unfold getGitHubClient. rewrite create_eq. by rewrite H1. }
  assert (s2 = perform URLSearchParams (foldl (perform URLSearchParams) s1 calls)
                       (Construct (inr tok2) u2)) as Es2.
  { cbn. unfold getGitHubClient. rewrite create_eq. by rewrite H2. }
  assert (separated s2) as (_ & _ & Hinj).
  { rewrite Es2. apply separated_perform, separated_calls. rewrite Es1.
    by apply separated_perform. }
  destruct (GitHubFacts.constructor_limiter _ _ _ _ _ H1) as ([l1 Hl1] & Hu1 & _).
  destruct (GitHubFacts.constructor_limiter _ _ _ _ _ H2) as (_ & Hu2 & Hsub2).
  pose proof (GitHubFacts.calls_userLimiters URLSearchParams s1 calls) as Hsub1.
  rewrite Hl1 in Hu1.
  assert (userLimiters s2 !! u1 = Some l1) as Hs2u1.
  { eapply lookup_weaken; [|exact Hsub2]. eapply lookup_weaken; [exact Hu1|exact Hsub1]. }
  rewrite <-Heq, Hl1 in Hu2. apply Hne. by eapply Hinj.
Qed.

(** X6.  Constructing a client for a user id that already has a limiter changes
    nothing: no second limiter is created and the registry stays as it is. *)
Theorem construct_again tok1 tok2 userId (s : State) :
  perform URLSearchParams (perform URLSearchParams s (Construct (inr tok1) userId))
          (Construct (inr tok2) userId)
  = perform URLSearchParams s (Construct (inr tok1) userId).
Proof.
  cbn. unfold getGitHubClient. rewrite !create_eq, !GitHubFacts.constructor_eq.
  destruct (userLimiters s !! userId) as [l|] eqn:E; cbn.
  - by rewrite E.
  - by rewrite lookup_insert_eq.
Qed.

(** X7.  [create], by the answer of the token provider.  When [getToken]
    rejects, [create] rejects with the same error, clears the credential,
    sends the page to [/auth/callback], makes no request and leaves the
    registry alone.  When it yields a token, [create] resolves to a client
    that carries this token and the limiter registered for the user id,
    keeps the credential and neither navigates nor makes a request. *)
Theorem create_outcome userId (s : State) :
  (∀ e, let s' := (create (inl e) userId s).2 in
        (create (inl e) userId s).1 = inl e
        ∧ credential s' = None
        ∧ navigations (newEvents s s') = ["/auth/callback"%string]
        ∧ traffic (newEvents s s') = []
        ∧ userLimiters s' = userLimiters s ∧ created s' = created s)
  ∧ (∀ token, let s' := (create (inr token) userId s).2 in
        ∃ this, (create (inr token) userId s).1 = inr this
                ∧ GitHub.token this = token
                ∧ limiter this = userLimiters s' !! userId
                ∧ is_Some (limiter this)
                ∧ credential s' = credential s
                ∧ navigations (newEvents s s') = []
                ∧ traffic (newEvents s s') = []).
Proof.
  split.
  - intros e. rewrite create_eq. cbn. unfold newEvents. cbn.
    by rewrite drop_app_length.
  - intros token. rewrite create_eq, GitHubFacts.constructor_eq.
    destruct (userLimiters s !! userId) as [l|] eqn:E; cbn.
    + eexists. split; [done|]. cbn. rewrite E. unfold newEvents.
      rewrite drop_all. eauto 10.
    + eexists. split; [done|]. cbn. rewrite lookup_insert_eq. unfold newEvents. cbn.
      rewrite drop_app_length. eauto 10.
Qed.

(** *** The module-level [getRepository] *)

(** What the [try] block of the module-level [getRepository] ends with, by
    its token and the answer of the network, and what it records.  The
    [catch] sees the errors thrown in the block; the rejection of
    [response.json()] comes after it. *)
Lemma direct_eq (tok : Error + string) owner repo (s : State) :
  let url := ("https://api.github.com/repos/" +:+ owner +:+ "/" +:+ repo)%string in
  let block : (Error + Response (Json := Json)) * list Event :=
    match tok with
    | inl e => (inl e, [])
    | inr token =>
        ( match network s url with
          | None => inl NetworkError
          | Some r =>
              if ok r then inr r
              else if bool_decide (status r = 401) then inl TokenInvalid
              else inl (ApiError (status r) (statusText r))
          end,
          Fetch url ("Bearer " +:+ token)
          :: match network s url with
             | Some r => if negb (ok r) && bool_decide (status r = 401)
                         then [ClearToken] else []
             | None => []
             end )
    end in
  (getRepositoryDirect tok owner repo s).1
  = match block.1 with
    | inl e => inl e
    | inr r => match body r with inr j => inr j | inl m => inl (SyntaxError m) end
    end
  ∧ events (getRepositoryDirect tok owner repo s).2
    = events s ++ block.2
      ++ match block.1 with
         | inr _ => []
         | inl e => ConsoleError "[getRepository] Error:" e
                    :: if instanceofError e && includes "token" (message e)
                       then [Navigate "/auth/callback"] else []
         end.
Proof.
  cbv zeta.
  unfold getRepositoryDirect, CM.catch, fetch, clearToken, emit, json.
  unfold CM.bind, CM.modify, CM.gets, CM.throw, CM.ret.
  destruct tok as [e|token]; cbn.
  - destruct (_ && _); cbn; by rewrite <-?app_assoc.
  - destruct (network s _) as [r|]; cbn.
    + destruct (ok r); cbn.
      * destruct (body r); cbn; by rewrite <-?app_assoc, ?app_nil_r.
      * case_bool_decide; cbn; [|destruct (includes _ _)]; cbn;
          by rewrite <-?app_assoc.
    + by rewrite <-?app_assoc.
Qed.

Lemma navigations_app (e1 e2 : list Event) :
  navigations (e1 ++ e2) = navigations e1 ++ navigations e2.
Proof. apply omap_app. Qed.

Lemma traffic_app (e1 e2 : list Event) : traffic (e1 ++ e2) = traffic e1 ++ traffic e2.
Proof. apply omap_app. Qed.

(** X8.  When the module-level [getRepository] sends the page to
    [/auth/callback].  It does so exactly when an error is thrown inside its
    [try] block that is an [Error] object whose message contains ["token"]:
    a rejection of [getToken] with such an error, a 401, or another status
    outside 200-299 whose error message contains the word.  It navigates at
    most once, and never when [fetch] itself rejects.  A 2xx answer never
    navigates, whatever its body: [response.json()] is returned without
    [await], so when the body does not parse the function rejects with the
    parser's error without logging it and without navigating, even if the
    parser's message contains ["token"]. *)
Theorem direct_navigates_iff tok owner repo (s : State) :
  let url := ("https://api.github.com/repos/" +:+ owner +:+ "/" +:+ repo)%string in
  let run := getRepositoryDirect tok owner repo s in
  let navigated := navigations (newEvents s run.2) in
  (navigated = ["/auth/callback"%string]
   ↔ (∃ e, tok = inl e ∧ instanceofError e = true ∧ includes "token" (message e) = true)
     ∨ (∃ token r, tok = inr token ∧ network s url = Some r ∧ ¬ 200 ≤ status r ≤ 299
          ∧ (status r = 401
             ∨ includes "token" (message (ApiError (status r) (statusText r))) = true)))
  ∧ (navigated = [] ∨ navigated = ["/auth/callback"%string])
  ∧ (∀ token r m, tok = inr token → network s url = Some r → 200 ≤ status r ≤ 299 →
       body r = inl m →
       run.1 = inl (SyntaxError m)
       ∧ newEvents s run.2 = [Fetch url ("Bearer " +:+ token)]).
Proof.
  cbv zeta. destruct (direct_eq tok owner repo s) as [Hres Hev]. cbv zeta in Hres, Hev.
  rewrite (GitHubFacts.newEvents_app _ _ _ Hev), Hres. clear Hres Hev.
  destruct tok as [e|token]; cbn [fst snd app].
  - destruct (instanceofError e && includes "token" (message e)) eqn:Hinc; cbn.
    + apply andb_true_iff in Hinc as [Hi Hm]. split_and!.
      * split; [eauto|done].
      * by right.
      * by intros.
    + split_and!.
      * split; [done|]. intros [(e' & [= <-] & Hi & Hm)|(? & ? & ? & _)]; [|done].
        by rewrite Hi, Hm in Hinc.
      * by left.
      * by intros.
  - destruct (network s _) as [r|] eqn:Hr; cbn.
    2: { split_and!.
         - split; [done|]. intros [(? & ? & _)|(? & ? & _ & ? & _)]; done.
         - by left.
         - by intros. }
    unfold ok. case_bool_decide as Hok; cbn.
    + split_and!.
      * split; [done|].
        intros [(? & ? & _)|(? & r' & _ & [= <-] & ? & _)]; done.
      * by left.
      * intros token' r' m [= <-] [= <-] _ ->. done.
    + case_bool_decide as H401; cbn.
      * split_and!.
        -- split; [|done]. intros _. right. exists token, r. eauto.
        -- by right.
        -- intros token' r' m _ [= <-] ? _. done.
      * destruct (includes "token" _) eqn:Hinc; cbn.
        -- split_and!.
           ++ split; [|done]. intros _. right. exists token, r. eauto 10.
           ++ by right.
           ++ intros token' r' m _ [= <-] ? _. done.
        -- split_and!.
           ++ split; [done|].
              intros [(? & ? & _)|(? & r' & _ & [= <-] & _ & [?|Hm])]; [done..|].
              by rewrite Hm in Hinc.
           ++ by left.
           ++ intros token' r' m _ [= <-] ? _. done.
Qed.

(** X9.  The module-level [getRepository] never withdraws a token from a
    limiter and never touches the registry: its traffic is its one [fetch],
    and nothing at all when there is no token. *)
Theorem direct_bypasses_the_limiter tok owner repo (s : State) :
  let s' := (getRepositoryDirect tok owner repo s).2 in
  traffic (newEvents s s')
  = match tok with
    | inr _ => [inr ("https://api.github.com/repos/" +:+ owner +:+ "/" +:+ repo)%string]
    | inl _ => []
    end
  ∧ userLimiters s' = userLimiters s ∧ created s' = created s.
Proof.
  cbv zeta. split; [|apply direct_registry].
  destruct (direct_eq tok owner repo s) as [Hres Hev]. cbv zeta in Hres, Hev.
  rewrite (GitHubFacts.newEvents_app _ _ _ Hev), !traffic_app.
  assert (∀ (o : Error + Response (Json := Json)),
    traffic match o with
            | inr _ => []
            | inl e => ConsoleError "[getRepository] Error:" e
                       :: if instanceofError e && includes "token" (message e)
                          then [Navigate "/auth/callback"] else []
            end = []) as Htail.
  { intros [e|j]; [|done]. by destruct (_ && _). }
  rewrite Htail, app_nil_r.
  destruct tok as [e|token]; [done|]. cbn.
  destruct (network s _) as [r|]; [|done]. by destruct (_ && _).
Qed.

(** X10.  On a 401 the module-level [getRepository] rejects with the
    invalid-token error, clears the credential exactly once and sends the page
    to [/auth/callback]. *)
Theorem direct_unauthorized token owner repo (s : State) r :
  network s ("https://api.github.com/repos/" +:+ owner +:+ "/" +:+ repo)%string = Some r →
  status r = 401 →
  let run := getRepositoryDirect (inr token) owner repo s in
  run.1 = inl TokenInvalid ∧ credential run.2 = None
  ∧ clears (newEvents s run.2) = 1%nat
  ∧ navigations (newEvents s run.2) = ["/auth/callback"%string].
Proof.
  intros Hr H401. cbv zeta.
  unfold getRepositoryDirect, CM.catch, fetch, clearToken, emit, json.
  unfold CM.bind, CM.modify, CM.gets, CM.throw, CM.ret. cbn.
  rewrite Hr. cbn. unfold ok. rewrite bool_decide_false by lia. cbn.
  rewrite bool_decide_true by done. cbn.
  unfold newEvents. cbn. rewrite <-!app_assoc, drop_app_length. done.
Qed.

(** *** Navigation *)

Lemma request_navigations this path (s : State) :
  navigations (newEvents s (request this path s).2) = [].
Proof.
  unfold request, removeTokens, fetch, clearToken, emit, json.
  unfold CM.bind, CM.modify, CM.gets, CM.throw, CM.ret.
  destruct (limiter this) as [l|]; cbn.
  2: { unfold newEvents; cbn. by rewrite drop_app_length. }
  destruct (network s _) as [r|] eqn:Hr; cbn.
  2: { unfold newEvents; cbn. by rewrite <-!app_assoc, drop_app_length. }
  destruct (ok r); cbn.
  - destruct (body r); cbn; unfold newEvents; cbn;
      by rewrite <-!app_assoc, drop_app_length.
  - case_bool_decide; [|destruct (_ && _)]; cbn; unfold newEvents; cbn;
      by rewrite <-!app_assoc, drop_app_length.
Qed.

Lemma request_extends this path (s : State) :
  ∃ evs, events (request this path s).2 = events s ++ evs.
Proof.
  unfold request, removeTokens, fetch, clearToken, emit, json.
  unfold CM.bind, CM.modify, CM.gets, CM.throw, CM.ret.
  destruct (limiter this) as [l|]; cbn; [|by eexists].
  destruct (network s _) as [r|]; cbn; [|rewrite <-!app_assoc; by eexists].
  destruct (ok r); cbn.
  - destruct (body r); cbn; rewrite <-!app_assoc; by eexists.
  - case_bool_decide; [|destruct (_ && _)]; cbn; rewrite <-!app_assoc; by eexists.
Qed.

Lemma request_navigations_after e this path (s : State) :
  let s0 := mkState (userLimiters s) (created s) (credential s) (network s)
                    (events s ++ [ConsoleLog e.1 e.2]) in
  navigations (newEvents s (request this path s0).2) = [].
Proof.
  cbv zeta.
  match goal with
  | |- context [request ?t ?p ?s'] =>
      pose proof (request_navigations t p s') as Hn;
      destruct (request_extends t p s') as [evs Hevs]
  end.
  rewrite (GitHubFacts.newEvents_app _ _ _ Hevs) in Hn.
  cbn [events] in Hevs. rewrite <-app_assoc in Hevs.
  rewrite (GitHubFacts.newEvents_app _ _ _ Hevs). cbn. done.
Qed.

(** X11.  No method of a client ever navigates: [getRepository],
    [searchRepositories], [listRepositories] and [listRepositoryIssues] leave
    [window.location] alone on every answer, a 401 included. *)
Theorem methods_never_navigate this m (s : State) :
  navigations (newEvents s (invoke URLSearchParams this m s).2) = [].
Proof.
  destruct m; cbn [invoke];
    unfold getRepository, searchRepositories, listRepositories, listRepositoryIssues;
    rewrite ?GitHubFacts.bind_emit.
  3,4: apply request_navigations.
  all: match goal with
       | |- context [ConsoleLog ?a ?b] => apply (request_navigations_after (a, b))
       end.
Qed.

End Facts.

(** *** The properties at example answers *)

Lemma request_resolves_iff_witness :
  let this := mkClient "t0" (Some 0%nat) in
  let s := MoreExamples.answering (Wired.okResponse 3) in
  let result := (request this "/user/repos" s).1 in
  let answer := network s "https://api.github.com/user/repos"%string in
  (∀ j, result = inr j ↔ ∃ r, answer = Some r ∧ 200 ≤ status r ≤ 299 ∧ body r = inr j)
  ∧ (∀ m, result = inl (SyntaxError m)
          ↔ ∃ r, answer = Some r ∧ 200 ≤ status r ≤ 299 ∧ body r = inl m).
Proof.
  apply (request_resolves_iff (mkClient "t0" (Some 0%nat)) "/user/repos"%string
           (MoreExamples.answering (Wired.okResponse 3)) 0%nat).
  reflexivity.
Defined.

Lemma request_rejections_witness :
  let this := mkClient "t0" (Some 0%nat) in
  let s := MoreExamples.answering (Wired.errorResponse 403 "Forbidden") in
  let result := (request this "/user/repos" s).1 in
  let answer := network s "https://api.github.com/user/repos"%string in
  (result = inl TokenInvalid ↔ ∃ r, answer = Some r ∧ status r = 401)
  ∧ (result = inl RateLimitExceeded
     ↔ ∃ r, answer = Some r ∧ status r = 403 ∧ ratelimitRemaining r = Some "0"%string)
  ∧ (∀ st txt, result = inl (ApiError st txt)
     ↔ ∃ r, answer = Some r ∧ status r = st ∧ statusText r = txt
            ∧ ¬ 200 ≤ st ≤ 299 ∧ st ≠ 401
            ∧ ¬ (st = 403 ∧ ratelimitRemaining r = Some "0"%string))
  ∧ (result = inl NetworkError ↔ answer = None).
Proof.
  apply (request_rejections (mkClient "t0" (Some 0%nat)) "/user/repos"%string
           (MoreExamples.answering (Wired.errorResponse 403 "Forbidden")) 0%nat).
  reflexivity.
Defined.

Lemma request_keeps_credential_witness :
  let this := mkClient "t0" (Some 0%nat) in
  let s := MoreExamples.answering (Wired.errorResponse 500 "Internal Server Error") in
  credential (request this "/user/repos" s).2 = Some "t0"%string
  ∧ clears (newEvents s (request this "/user/repos" s).2) = 0%nat.
Proof.
  apply (request_keeps_credential (mkClient "t0" (Some 0%nat)) "/user/repos"%string
           (MoreExamples.answering (Wired.errorResponse 500 "Internal Server Error"))).
  intros r [= <-]. cbn. lia.
Defined.

Lemma separated_perform_witness :
  separated (perform plainSearchParams MoreExamples.oneUser
               (Construct (inr "t1"%string) "u2"%string)).
Proof.
  apply (separated_perform plainSearchParams MoreExamples.oneUser
           (Construct (inr "t1"%string) "u2"%string)).
  unfold separated, MoreExamples.oneUser. cbn [userLimiters created]. split_and!.
  - reflexivity.
  - intros u l [_ <-]%lookup_singleton_Some. lia.
  - intros u1 u2 l [<- _]%lookup_singleton_Some [<- _]%lookup_singleton_Some.
    reflexivity.
Defined.

Lemma limiters_per_user_witness :
  let calls := [Invoke (mkClient "t0" (Some 0%nat)) ListRepositories] in
  ∃ this1 this2 s2,
    constructor "t0" "u1" MoreExamples.oneUser = (inr this1, MoreExamples.oneUser)
    ∧ constructor "t1" "u2"
        (foldl (perform plainSearchParams) MoreExamples.oneUser calls) = (inr this2, s2)
    ∧ limiter this1 ≠ limiter this2.
Proof.
  exists (mkClient "t0" (Some 0%nat)), (mkClient "t1" (Some 1%nat)),
    (constructor "t1" "u2"
       (foldl (perform plainSearchParams) MoreExamples.oneUser
              [Invoke (mkClient "t0" (Some 0%nat)) ListRepositories])).2.
  split; [reflexivity|]. split; [reflexivity|].
  apply (limiters_per_user plainSearchParams "t0"%string "t1"%string
           "u1"%string "u2"%string MoreExamples.oneUser
           (mkClient "t0" (Some 0%nat)) MoreExamples.oneUser
           [Invoke (mkClient "t0" (Some 0%nat)) ListRepositories]
           (mkClient "t1" (Some 1%nat))
           (constructor "t1" "u2"
              (foldl (perform plainSearchParams) MoreExamples.oneUser
                     [Invoke (mkClient "t0" (Some 0%nat)) ListRepositories])).2).
  - unfold separated, MoreExamples.oneUser. cbn [userLimiters created]. split_and!.
    + reflexivity.
    + intros u l [_ <-]%lookup_singleton_Some. lia.
    + intros u1 u2 l [<- _]%lookup_singleton_Some [<- _]%lookup_singleton_Some.
      reflexivity.
  - reflexivity.
  - reflexivity.
  - intros [=].
Defined.

Lemma direct_navigates_iff_witness :
  let s := MoreExamples.answering
             (mkResponse 200 "OK" None (inl "Unexpected token < in JSON at position 0")) in
  let run := getRepositoryDirect (inr "t0"%string) "a" "r1" s in
  includes "token" "Unexpected token < in JSON at position 0" = true
  ∧ run.1 = inl (SyntaxError "Unexpected token < in JSON at position 0")
  ∧ newEvents s run.2 = [Fetch "https://api.github.com/repos/a/r1" "Bearer t0"]
  ∧ navigations (newEvents s run.2) = [].
Proof.
  cbv zeta.
  destruct (direct_navigates_iff (inr "t0"%string) "a"%string "r1"%string
              (MoreExamples.answering
                 (mkResponse 200 "OK" None
                    (inl "Unexpected token < in JSON at position 0"%string))))
    as (_ & _ & Hjson).
  destruct (Hjson "t0"%string
              (mkResponse 200 "OK" None (inl "Unexpected token < in JSON at position 0"%string))
              "Unexpected token < in JSON at position 0"%string)
    as [Hres Hev].
  - reflexivity.
  - reflexivity.
  - cbn. lia.
  - reflexivity.
  - split; [reflexivity|]. split; [exact Hres|]. split; [exact Hev|].
    rewrite Hev. reflexivity.
Defined.

Lemma direct_unauthorized_witness :
  let s := MoreExamples.answering (Wired.errorResponse 401 "Unauthorized") in
  let run := getRepositoryDirect (inr "t0"%string) "a" "r1" s in
  run.1 = inl TokenInvalid ∧ credential run.2 = None
  ∧ clears (newEvents s run.2) = 1%nat
  ∧ navigations (newEvents s run.2) = ["/auth/callback"%string].
Proof.
  apply (direct_unauthorized "t0"%string "a"%string "r1"%string
           (MoreExamples.answering (Wired.errorResponse 401 "Unauthorized"))
           (Wired.errorResponse 401 "Unauthorized")).
  - reflexivity.
  - reflexivity.
Defined.
End ClientProperties.

(** * Further properties of [pages/Dashboard.tsx] *)

Module DashboardProperties.
Import Dashboard Summary Invariants LoopFacts LoopRuns.

Section Runs.
Context {Σ : Type}.
Variable withGitHub : ∀ A : Type, (GitHubClient Σ → C Σ A) → C Σ (option A).

(** *** The runs of [fetchStats], path by path *)

Lemma countQuery_fail q (w : World Σ) e :
  countError q = Some e → countQuery q w = (Throw e, tick w).
Proof. unfold countQuery, bind, await, ret, throw. cbn. by intros ->. Qed.

Lemma firstCountError_None sb :
  firstCountError sb = None ↔
  countError (trackedQuery sb) = None ∧ countError (analyzedQuery sb) = None
  ∧ countError (automationsQuery sb) = None.
Proof.
  unfold firstCountError.
  destruct (countError (trackedQuery sb)), (countError (analyzedQuery sb)),
    (countError (automationsQuery sb)); intuition congruence.
Qed.

(** [fetchStats] when one of the count queries fails. *)
Lemma fetchStats_count_error teardown sb (w : World Σ) e :
  firstCountError sb = Some e →
  ∃ c, (clock w < c ≤ clock w + 3)%nat ∧
    fetchStats withGitHub teardown sb w =
    (Ok tt,
     mkWorld (stats w) (refreshing w) c
       (journal w ++ (c, ConsoleError "Error fetching dashboard stats:" e)
          :: if aliveAt teardown c then [(c, ShowToast loadErrorToast)] else [])
       (client w)).
Proof.
  unfold firstCountError. intros He. unfold fetchStats, catch.
  destruct (countError (trackedQuery sb)) as [e1|] eqn:H1.
  { injection He as ->. exists (S (clock w)). split; [lia|].
    unfold bind at 1. rewrite (countQuery_fail _ _ _ H1).
    unfold bind, emit, mounted, toast, emit, ret, tick. cbn.
    fold (aliveAt teardown (S (clock w))).
    destruct (aliveAt teardown (S (clock w))); cbn; by rewrite <-?app_assoc. }
  rewrite (bind_Ok _ _ _ _ _ (countQuery_ok _ _ H1)).
  destruct (countError (analyzedQuery sb)) as [e2|] eqn:H2.
  { injection He as ->. exists (S (S (clock w))). split; [lia|].
    unfold bind at 1. rewrite (countQuery_fail _ _ _ H2).
    unfold bind, emit, mounted, toast, emit, ret, tick. cbn.
    fold (aliveAt teardown (S (S (clock w)))).
    destruct (aliveAt teardown (S (S (clock w)))); cbn; by rewrite <-?app_assoc. }
  rewrite (bind_Ok _ _ _ _ _ (countQuery_ok _ _ H2)).
  exists (S (S (S (clock w)))). split; [lia|].
  unfold bind at 1. rewrite (countQuery_fail _ _ _ He).
  unfold bind, emit, mounted, toast, emit, ret, tick. cbn.
  fold (aliveAt teardown (S (S (S (clock w))))).
  destruct (aliveAt teardown (S (S (S (clock w))))); cbn; by rewrite <-?app_assoc.
Qed.

Lemma fetchStats_list_error teardown sb (w : World Σ) e :
  firstCountError sb = None → dataError (repositoriesQuery sb) = Some e →
  let w1 := countsCommitted teardown sb w in
  fetchStats withGitHub teardown sb w =
  (Ok tt,
   mkWorld (stats w1) (refreshing w) (clock w + 4)
     (journal w1 ++ ((clock w + 4)%nat, ConsoleError "Error fetching dashboard stats:" e)
        :: if aliveAt teardown (clock w + 4)
           then [((clock w + 4)%nat, ShowToast loadErrorToast)] else [])
     (client w)).
Proof.
  intros (H1 & H2 & H3)%firstCountError_None H4. cbv zeta.
  unfold fetchStats, catch, countsCommitted.
  rewrite (bind_Ok _ _ _ _ _ (countQuery_ok _ _ H1)).
  rewrite (bind_Ok _ _ _ _ _ (countQuery_ok _ _ H2)).
  rewrite (bind_Ok _ _ _ _ _ (countQuery_ok _ _ H3)).
  replace (clock w + 4)%nat with (S (S (S (S (clock w))))) by lia.
  replace (clock w + 3)%nat with (S (S (S (clock w)))) by lia.
  unfold bind at 1, mounted at 1. cbn [tick clock].
  fold (aliveAt teardown (S (S (S (clock w))))).
  destruct (aliveAt teardown (S (S (S (clock w))))).
  - unfold bind at 1, setStats at 1. unfold bind at 1, await at 1, ret at 1. rewrite H4.
    unfold bind at 1, throw at 1. cbn [tick stats refreshing clock journal client].
    unfold bind, emit, mounted, toast, emit, ret. cbn.
    fold (aliveAt teardown (S (S (S (S (clock w)))))).
    destruct (aliveAt teardown (S (S (S (S (clock w)))))); cbn; by rewrite <-?app_assoc.
  - unfold bind at 1, ret at 1. unfold bind at 1, await at 1, ret at 1. rewrite H4.
    unfold bind at 1, throw at 1. cbn [tick stats refreshing clock journal client].
    unfold bind, emit, mounted, toast, emit, ret. cbn.
    fold (aliveAt teardown (S (S (S (S (clock w)))))).
    destruct (aliveAt teardown (S (S (S (S (clock w)))))); cbn; by rewrite <-?app_assoc.
Qed.

Lemma aliveAt_mono td t t' :
  (t ≤ t')%nat → aliveAt td t' = true → aliveAt td t = true.
Proof. unfold aliveAt. destruct td; [|done]. rewrite !bool_decide_eq_true. lia. Qed.

Lemma fetchStats_null teardown sb (w : World Σ) :
  firstCountError sb = None → dataError (repositoriesQuery sb) = None →
  data (repositoriesQuery sb) = None →
  fetchStats withGitHub teardown sb w = (Ok tt, countsCommitted teardown sb w).
Proof.
  intros (H1 & H2 & H3)%firstCountError_None H4 Hdata.
  unfold fetchStats, catch, countsCommitted.
  rewrite (bind_Ok _ _ _ _ _ (countQuery_ok _ _ H1)).
  rewrite (bind_Ok _ _ _ _ _ (countQuery_ok _ _ H2)).
  rewrite (bind_Ok _ _ _ _ _ (countQuery_ok _ _ H3)).
  replace (clock w + 4)%nat with (S (S (S (S (clock w))))) by lia.
  replace (clock w + 3)%nat with (S (S (S (clock w)))) by lia.
  unfold bind at 1, mounted at 1. cbn [tick clock].
  fold (aliveAt teardown (S (S (S (clock w))))).
  destruct (aliveAt teardown (S (S (S (clock w))))).
  - unfold bind at 1, setStats at 1. unfold bind at 1, await at 1, ret at 1. rewrite H4.
    unfold bind at 1, ret at 1. unfold bind at 1, mounted at 1. rewrite Hdata. done.
  - unfold bind at 1, ret at 1. unfold bind at 1, await at 1, ret at 1. rewrite H4.
    unfold bind at 1, ret at 1. unfold bind at 1, mounted at 1. rewrite Hdata. done.
Qed.

Lemma fetchStats_torn_before teardown sb repos (w : World Σ) :
  firstCountError sb = None → dataError (repositoriesQuery sb) = None →
  data (repositoriesQuery sb) = Some repos →
  aliveAt teardown (clock w + 4) = false →
  fetchStats withGitHub teardown sb w = (Ok tt, countsCommitted teardown sb w).
Proof.
  intros (H1 & H2 & H3)%firstCountError_None H4 Hdata Hdead.
  unfold fetchStats, catch, countsCommitted.
  rewrite (bind_Ok _ _ _ _ _ (countQuery_ok _ _ H1)).
  rewrite (bind_Ok _ _ _ _ _ (countQuery_ok _ _ H2)).
  rewrite (bind_Ok _ _ _ _ _ (countQuery_ok _ _ H3)).
  replace (clock w + 4)%nat with (S (S (S (S (clock w))))) in * by lia.
  replace (clock w + 3)%nat with (S (S (S (clock w)))) by lia.
  unfold bind at 1, mounted at 1. cbn [tick clock].
  fold (aliveAt teardown (S (S (S (clock w))))).
  destruct (aliveAt teardown (S (S (S (clock w))))).
  - unfold bind at 1, setStats at 1. unfold bind at 1, await at 1, ret at 1. rewrite H4.
    unfold bind at 1, ret at 1. unfold bind at 1, mounted at 1. rewrite Hdata.
    cbn [tick stats refreshing clock journal client].
    fold (aliveAt teardown (S (S (S (S (clock w)))))). by rewrite Hdead.
  - unfold bind at 1, ret at 1. unfold bind at 1, await at 1, ret at 1. rewrite H4.
    unfold bind at 1, ret at 1. unfold bind at 1, mounted at 1. rewrite Hdata.
    cbn [tick stats refreshing clock journal client].
    fold (aliveAt teardown (S (S (S (S (clock w)))))). by rewrite Hdead.
Qed.

Lemma fetchStats_loop teardown sb repos (w : World Σ) :
  firstCountError sb = None → dataError (repositoriesQuery sb) = None →
  data (repositoriesQuery sb) = Some repos →
  aliveAt teardown (clock w + 4) = true →
  let acc := result withGitHub repos (client w) in
  let s1 := withCounts (count (trackedQuery sb)) (count (analyzedQuery sb))
                       (count (automationsQuery sb)) (stats w) in
  let s2 := withOpenIssues (totalOpenIssues acc) s1 in
  let c := loopEnd (clock w + 4) 2 (length repos) in
  ∃ J,
    fetchStats withGitHub teardown sb w =
    (Ok tt,
     mkWorld (if aliveAt teardown c then s2 else s1) (refreshing w) c
             (journal w ++ ((clock w + 3)%nat, SetStats s1) :: J
                ++ if aliveAt teardown c then (c, SetStats s2) :: warning c acc else [])
             (clientAfter withGitHub repos (client w)))
    ∧ pacing J = expectedPacing 2 (length repos) 0
    ∧ toasts J = [] ∧ select isCommit J = [] ∧ logged J = [] ∧ flags J = [].
Proof.
  intros (H1 & H2 & H3)%firstCountError_None H4 Hdata Halive acc s1 s2 c.
  assert (aliveAt teardown (clock w + 3) = true) as Halive3.
  { apply (aliveAt_mono _ _ (clock w + 4)); [lia|done]. }
  unfold fetchStats, catch.
  rewrite (bind_Ok _ _ _ _ _ (countQuery_ok _ _ H1)).
  rewrite (bind_Ok _ _ _ _ _ (countQuery_ok _ _ H2)).
  rewrite (bind_Ok _ _ _ _ _ (countQuery_ok _ _ H3)).
  subst c.
  replace (clock w + 4)%nat with (S (S (S (S (clock w))))) in * by lia.
  replace (clock w + 3)%nat with (S (S (S (clock w)))) in * by lia.
  unfold bind at 1, mounted at 1. cbn [tick clock].
  fold (aliveAt teardown (S (S (S (clock w))))). rewrite Halive3.
  unfold bind at 1, setStats at 1. unfold bind at 1, await at 1, ret at 1. rewrite H4.
  unfold bind at 1, ret at 1. unfold bind at 1, mounted at 1. rewrite Hdata.
  cbn [tick stats refreshing clock journal client].
  fold (aliveAt teardown (S (S (S (S (clock w)))))). rewrite Halive.
  unfold bind at 1.
  edestruct (aggregate_run withGitHub false 2 repos) as (J & -> & Hp & Ht & Hs & HL & HF); [lia|].
  cbn [stats refreshing clock journal client].
  unfold bind at 1, mounted at 1. cbn [stats refreshing clock journal client].
  fold (aliveAt teardown (loopEnd (S (S (S (S (clock w))))) 2 (length repos))).
  exists J. split; [|done].
  fold s1 acc.
  destruct (aliveAt teardown (loopEnd (S (S (S (S (clock w))))) 2 (length repos))).
  - rewrite report_eq. cbn [stats refreshing clock journal client].
    fold s2. by rewrite <-!app_assoc.
  - unfold ret. by rewrite app_nil_r, <-!app_assoc.
Qed.

(** *** The runs of the refresh handlers, path by path *)

Lemma refreshOpenIssues_error sb (w : World Σ) e :
  dataError (repositoriesQuery sb) = Some e →
  refreshOpenIssues withGitHub sb w =
  (Ok tt,
   mkWorld (stats w)
     (<["openIssues"%string := false]> (<["openIssues"%string := true]> (refreshing w)))
     (S (clock w))
     (journal w ++ [(clock w, SetRefreshing "openIssues" true);
                    (S (clock w), ConsoleError "Error refreshing open issues:" e);
                    (S (clock w), ShowToast refreshErrorToast);
                    (S (clock w), SetRefreshing "openIssues" false)])
     (client w)).
Proof.
  intros H4. unfold refreshOpenIssues. unfold bind at 1, setRefreshing at 1.
  unfold finally, catch.
  unfold bind at 1, await at 1, ret at 1. rewrite H4.
  unfold bind, throw, emit, toast, emit, setRefreshing, ret. cbn.
  by rewrite <-!app_assoc.
Qed.

Lemma refreshOpenIssues_null sb (w : World Σ) :
  dataError (repositoriesQuery sb) = None → data (repositoriesQuery sb) = None →
  refreshOpenIssues withGitHub sb w =
  (Ok tt,
   mkWorld (stats w)
     (<["openIssues"%string := false]> (<["openIssues"%string := true]> (refreshing w)))
     (S (clock w))
     (journal w ++ [(clock w, SetRefreshing "openIssues" true);
                    (S (clock w), SetRefreshing "openIssues" false)])
     (client w)).
Proof.
  intros H4 Hdata. unfold refreshOpenIssues. unfold bind at 1, setRefreshing at 1.
  unfold finally, catch.
  unfold bind at 1, await at 1, ret at 1. rewrite H4.
  unfold bind at 1, ret at 1. rewrite Hdata.
  unfold bind, setRefreshing, ret. cbn.
  by rewrite <-!app_assoc.
Qed.

Lemma refreshOpenIssues_loop sb repos (w : World Σ) :
  dataError (repositoriesQuery sb) = None → data (repositoriesQuery sb) = Some repos →
  let acc := result withGitHub repos (client w) in
  let s2 := withOpenIssues (totalOpenIssues acc) (stats w) in
  let c := loopEnd (S (clock w)) 2 (length repos) in
  ∃ J,
    refreshOpenIssues withGitHub sb w =
    (Ok tt,
     mkWorld s2
       (<["openIssues"%string := false]> (<["openIssues"%string := true]> (refreshing w))) c
       (journal w ++ (clock w, SetRefreshing "openIssues" true) :: J
          ++ (c, SetStats s2) :: warning c acc
          ++ [(c, SetRefreshing "openIssues" false)])
       (clientAfter withGitHub repos (client w)))
    ∧ pacing J = expectedPacing 2 (length repos) 0
    ∧ toasts J = [] ∧ select isCommit J = []
    ∧ logged J = errorsOf (outcomes withGitHub repos (client w)) ∧ flags J = [].
Proof.
  intros H4 Hdata acc s2 c.
  unfold refreshOpenIssues. unfold bind at 1, setRefreshing at 1.
  unfold finally, catch.
  unfold bind at 1, await at 1, ret at 1. rewrite H4.
  unfold bind at 1, ret at 1. rewrite Hdata.
  cbn [stats refreshing clock journal client].
  unfold bind at 1.
  edestruct (aggregate_run withGitHub true 2 repos) as (J & -> & Hp & Ht & Hs & HL & HF); [lia|].
  rewrite report_eq.
  cbn [stats refreshing clock journal client].
  unfold bind, setRefreshing, ret. cbn [stats refreshing clock journal client].
  exists J. split; [|done].
  fold acc. fold s2. fold c. do 2 f_equal.
  by rewrite <-!app_assoc.
Qed.

Lemma countHandler_ok card sb (w : World Σ) :
  countError (countQueryOf card sb) = None →
  let s' := countUpdater card (count (countQueryOf card sb)) (stats w) in
  countHandler card sb w =
  (Ok tt,
   mkWorld s'
     (<[countKey card := false]> (<[countKey card := true]> (refreshing w)))
     (S (clock w))
     (journal w ++ [(clock w, SetRefreshing (countKey card) true);
                    (S (clock w), SetStats s');
                    (S (clock w), SetRefreshing (countKey card) false)])
     (client w)).
Proof.
  intros Hq. cbv zeta.
  destruct card; cbn [countHandler countQueryOf countUpdater countKey] in *.
  all: unfold refreshTrackedRepos, refreshAnalyzedRepos, refreshActiveAutomations.
  all: unfold bind at 1, setRefreshing at 1; unfold finally, catch.
  all: unfold bind at 1; rewrite (countQuery_ok _ _ Hq).
  all: unfold bind, setStats, setRefreshing, ret, tick; cbn.
  all: by rewrite <-!app_assoc.
Qed.

Lemma countHandler_fail card sb (w : World Σ) e :
  countError (countQueryOf card sb) = Some e →
  ∃ label,
  countHandler card sb w =
  (Ok tt,
   mkWorld (stats w)
     (<[countKey card := false]> (<[countKey card := true]> (refreshing w)))
     (S (clock w))
     (journal w ++ [(clock w, SetRefreshing (countKey card) true);
                    (S (clock w), ConsoleError label e);
                    (S (clock w), ShowToast (countErrorToast card));
                    (S (clock w), SetRefreshing (countKey card) false)])
     (client w)).
Proof.
  intros Hq.
  destruct card; cbn [countHandler countQueryOf countErrorToast countKey] in *.
  all: unfold refreshTrackedRepos, refreshAnalyzedRepos, refreshActiveAutomations.
  all: eexists; unfold bind at 1, setRefreshing at 1; unfold finally, catch.
  all: unfold bind at 1; rewrite (countQuery_fail _ _ _ Hq).
  all: unfold bind, emit, toast, emit, setRefreshing, ret, tick; cbn.
  all: by rewrite <-!app_assoc.
Qed.

(** *** What the runs leave behind *)

Lemma aliveAt_dead td t t' :
  (t ≤ t')%nat → aliveAt td t = false → aliveAt td t' = false.
Proof. unfold aliveAt. destruct td; [|done]. rewrite !bool_decide_eq_false. lia. Qed.

Lemma healthy_split sb :
  healthy sb ↔ firstCountError sb = None ∧ dataError (repositoriesQuery sb) = None.
Proof. rewrite firstCountError_None. unfold healthy. tauto. Qed.

(** X12.  When one of the three count queries of [fetchStats] answers with an
    error, the run stops there: the view state, the refreshing flags and the
    client are untouched, no batch is started, the error is logged once, and
    the load-error toast is shown if the effect is still alive and not shown
    if it was torn down. *)
Theorem fetchStats_count_query_fails teardown sb (w : World Σ) e :
  firstCountError sb = Some e →
  let w' := (fetchStats withGitHub teardown sb w).2 in
  stats w' = stats w ∧ refreshing w' = refreshing w ∧ client w' = client w
  ∧ select isCommit (since w w') = [] ∧ pacing (since w w') = []
  ∧ logged (since w w') = [e]
  ∧ (aliveAt teardown (clock w + 3) = true → toasts (since w w') = [loadErrorToast])
  ∧ (aliveAt teardown (clock w + 1) = false → toasts (since w w') = []).
Proof.
  intros He. cbv zeta.
  destruct (fetchStats_count_error teardown sb w e He) as (c & Hc & ->).
  cbn [snd stats refreshing client].
  erewrite since_app by reflexivity.
  split_and!; try done.
  - by destruct (aliveAt teardown c).
  - by destruct (aliveAt teardown c).
  - by destruct (aliveAt teardown c).
  - intros Ha. by rewrite (aliveAt_mono teardown c (clock w + 3)) by (done || lia).
  - intros Ha. by rewrite (aliveAt_dead teardown (clock w + 1) c) by (done || lia).
Qed.

(** X13.  When the count queries succeed and the repository query answers with
    an error while the effect is alive, [fetchStats] has already committed the three counts: they stay
    visible, [openIssues] keeps its value, no call to GitHub is made, and the
    error is logged once and reported by the load-error toast. *)
Theorem fetchStats_list_query_fails teardown sb (w : World Σ) e :
  firstCountError sb = None → dataError (repositoriesQuery sb) = Some e →
  aliveAt teardown (clock w + 4) = true →
  let w' := (fetchStats withGitHub teardown sb w).2 in
  stats w' = withCounts (count (trackedQuery sb)) (count (analyzedQuery sb))
                        (count (automationsQuery sb)) (stats w)
  ∧ openIssues (stats w') = openIssues (stats w)
  ∧ client w' = client w ∧ pacing (since w w') = []
  ∧ select isCommit (since w w') = [SetStats (stats w')]
  ∧ logged (since w w') = [e] ∧ toasts (since w w') = [loadErrorToast].
Proof.
  intros Hc He Ha. cbv zeta.
  rewrite (fetchStats_list_error teardown sb w e Hc He). cbv zeta.
  unfold countsCommitted.
  rewrite (aliveAt_mono teardown (clock w + 3) (clock w + 4)) by (done || lia).
  rewrite Ha. cbn [snd stats refreshing client journal].
  erewrite since_app by (by rewrite <-app_assoc).
  done.
Qed.

(** X14.  A [null] list of repositories and an empty one are different to a
    live [fetchStats] whose queries succeed: with [null] the loop is skipped and [openIssues] keeps its
    value, with the empty list [openIssues] is set to 0.  In both cases no
    call to GitHub is made, no batch is started and nothing is reported. *)
Theorem fetchStats_null_or_empty sb (w : World Σ) :
  healthy sb →
  let w' := (fetchStats withGitHub None sb w).2 in
  (data (repositoriesQuery sb) = None ∨ data (repositoriesQuery sb) = Some []) →
  openIssues (stats w') =
    match data (repositoriesQuery sb) with
    | None => openIssues (stats w)
    | Some _ => 0
    end
  ∧ client w' = client w ∧ pacing (since w w') = [] ∧ toasts (since w w') = []
  ∧ logged (since w w') = [].
Proof.
  intros [Hc Hd]%healthy_split. cbv zeta. intros [Hdata|Hdata]; rewrite Hdata.
  - rewrite (fetchStats_null None sb w Hc Hd Hdata). unfold countsCommitted.
    cbn [aliveAt snd stats refreshing client journal].
    by erewrite since_app by reflexivity.
  - destruct (fetchStats_loop None sb [] w Hc Hd Hdata eq_refl)
      as (J & -> & Hp & Ht & Hs & HL & HF).
    cbn [aliveAt snd stats refreshing client journal clientAfter].
    erewrite since_app by reflexivity.
    change (?x :: J ++ ?y :: ?l) with ([x] ++ J ++ [y] ++ l).
    rewrite !pacing_app, !toasts_app, !logged_app, Hp, Ht, HL. done.
Qed.

(** X15.  If the queries succeed and the effect is torn down before the
    repository query has answered, [fetchStats] makes no call to GitHub at all, starts no batch, leaves
    [openIssues] alone and stays silent. *)
Theorem fetchStats_torn_down_before_loop teardown sb repos (w : World Σ) :
  healthy sb → data (repositoriesQuery sb) = Some repos →
  aliveAt teardown (clock w + 4) = false →
  let w' := (fetchStats withGitHub teardown sb w).2 in
  client w' = client w ∧ pacing (since w w') = []
  ∧ openIssues (stats w') = openIssues (stats w)
  ∧ toasts (since w w') = [] ∧ logged (since w w') = [].
Proof.
  intros [Hc Hd]%healthy_split Hdata Hdead. cbv zeta.
  rewrite (fetchStats_torn_before teardown sb repos w Hc Hd Hdata Hdead).
  unfold countsCommitted.
  destruct (aliveAt teardown (clock w + 3)); cbn [snd stats refreshing client journal].
  - by erewrite since_app by reflexivity.
  - erewrite since_app by (by rewrite app_nil_r). done.
Qed.

(** X16.  The loop of [fetchStats] does not look at [mounted]: if the effect is
    torn down while the loop runs (after the queries have succeeded), every remaining item is still requested
    and every delay still waited for, and only then the result is dropped -
    the total is not committed and no warning is shown, even when items
    failed. *)
Theorem fetchStats_torn_down_during_loop teardown sb repos (w : World Σ) :
  healthy sb → data (repositoriesQuery sb) = Some repos →
  aliveAt teardown (clock w + 4) = true →
  aliveAt teardown (loopEnd (clock w + 4) 2 (length repos)) = false →
  let w' := (fetchStats withGitHub teardown sb w).2 in
  client w' = clientAfter withGitHub repos (client w)
  ∧ pacing (since w w') = expectedPacing 2 (length repos) 0
  ∧ clock w' = loopEnd (clock w + 4) 2 (length repos)
  ∧ openIssues (stats w') = openIssues (stats w)
  ∧ select isCommit (since w w')
    = [SetStats (withCounts (count (trackedQuery sb)) (count (analyzedQuery sb))
                            (count (automationsQuery sb)) (stats w))]
  ∧ toasts (since w w') = [] ∧ logged (since w w') = [].
Proof.
  intros [Hc Hd]%healthy_split Hdata Halive Hdead. cbv zeta.
  destruct (fetchStats_loop teardown sb repos w Hc Hd Hdata Halive)
    as (J & -> & Hp & Ht & Hs & HL & HF).
  rewrite Hdead. cbn [snd stats refreshing client journal clock].
  erewrite since_app by reflexivity.
  rewrite app_nil_r.
  change (?x :: J) with ([x] ++ J).
  rewrite !pacing_app, !toasts_app, !logged_app, !select_app, Hp, Ht, HL, Hs. done.
Qed.

(** X17.  When the repository query of [refreshStats.openIssues] answers with
    an error, the view state and the client are untouched, no batch is
    started, the error is logged once, the refresh-error toast is shown, and
    the [openIssues] flag ends lowered. *)
Theorem refreshOpenIssues_list_query_fails sb (w : World Σ) e :
  dataError (repositoriesQuery sb) = Some e →
  let w' := (refreshOpenIssues withGitHub sb w).2 in
  stats w' = stats w ∧ client w' = client w
  ∧ toasts (since w w') = [refreshErrorToast] ∧ logged (since w w') = [e]
  ∧ pacing (since w w') = [] ∧ select isCommit (since w w') = []
  ∧ refreshing w' !! "openIssues"%string = Some false.
Proof.
  intros He. cbv zeta. rewrite (refreshOpenIssues_error sb w e He).
  cbn [snd stats refreshing client journal].
  erewrite since_app by reflexivity.
  split_and!; try done. by rewrite lookup_insert_eq.
Qed.

(** X18.  Every asynchronous handler of the page resolves: [fetchStats]
    (whenever the effect is torn down), the four refresh handlers and the two
    realtime handlers neither reject nor loop forever, whatever the database
    and [withGitHub] answer. *)
Theorem handlers_always_resolve teardown sb card (w : World Σ) :
  (fetchStats withGitHub teardown sb w).1 = Ok tt
  ∧ (refreshOpenIssues withGitHub sb w).1 = Ok tt
  ∧ (countHandler card sb w).1 = Ok tt
  ∧ (onRepositoriesChange sb w).1 = Ok tt
  ∧ (onJobsChange sb w).1 = Ok tt.
Proof.
  split_and!; [| | |done..].
  - destruct (firstCountError sb) as [e|] eqn:Hc.
    { by destruct (fetchStats_count_error teardown sb w e Hc) as (c & _ & ->). }
    destruct (dataError (repositoriesQuery sb)) as [e|] eqn:Hd.
    { by rewrite (fetchStats_list_error teardown sb w e Hc Hd). }
    destruct (data (repositoriesQuery sb)) as [repos|] eqn:Hdata.
    2: { by rewrite (fetchStats_null teardown sb w Hc Hd Hdata). }
    destruct (aliveAt teardown (clock w + 4)) eqn:Ha.
    + by destruct (fetchStats_loop teardown sb repos w Hc Hd Hdata Ha) as (J & -> & _).
    + by rewrite (fetchStats_torn_before teardown sb repos w Hc Hd Hdata Ha).
  - destruct (dataError (repositoriesQuery sb)) as [e|] eqn:Hd.
    { by rewrite (refreshOpenIssues_error sb w e Hd). }
    destruct (data (repositoriesQuery sb)) as [repos|] eqn:Hdata.
    + by destruct (refreshOpenIssues_loop sb repos w Hd Hdata) as (J & -> & _).
    + by rewrite (refreshOpenIssues_null sb w Hd Hdata).
  - destruct (countError (countQueryOf card sb)) as [e|] eqn:Hq.
    + by destruct (countHandler_fail card sb w e Hq) as (label & ->).
    + by rewrite (countHandler_ok card sb w Hq).
Qed.

(** X19.  The refresh handlers of the three count cards.  Each leaves the
    client, [openIssues] and the two other counts alone.  When the query
    succeeds the card's count becomes [count || 0] and nothing is logged or
    shown; when it fails the view state is unchanged, the error is logged
    once and the card's own error toast is shown. *)
Theorem countHandler_outcome card sb (w : World Σ) :
  let q := countQueryOf card sb in
  let w' := (countHandler card sb w).2 in
  client w' = client w ∧ openIssues (stats w') = openIssues (stats w)
  ∧ (∀ other, other ≠ card → countField other (stats w') = countField other (stats w))
  ∧ match countError q with
    | None => countField card (stats w') = or_default (count q) 0
              ∧ toasts (since w w') = [] ∧ logged (since w w') = []
    | Some e => stats w' = stats w
                ∧ toasts (since w w') = [countErrorToast card]
                ∧ logged (since w w') = [e]
    end.
Proof.
  cbv zeta. destruct (countError (countQueryOf card sb)) as [e|] eqn:Hq.
  - destruct (countHandler_fail card sb w e Hq) as (label & ->).
    cbn [snd stats refreshing client journal].
    by erewrite since_app by reflexivity.
  - rewrite (countHandler_ok card sb w Hq).
    cbn [snd stats refreshing client journal].
    erewrite since_app by reflexivity.
    split_and!; try done.
    + by destruct card.
    + intros other Ho. by destruct card, other.
    + by destruct card.
Qed.

(** X20.  The result of the loop does not depend on the batch size: for every
    positive batch size the total is the sum of the counts of the items that
    resolved to a count, the failed list is the identifiers of the rejected
    items, and the client is left in the same state; the loop itself never
    writes the view state or the refreshing flags. *)
Theorem aggregate_independent_of_batch_size verbose1 verbose2 B1 B2 repos (w : World Σ) :
  (0 < B1)%nat → (0 < B2)%nat →
  let run1 := aggregate withGitHub verbose1 B1 repos w in
  let run2 := aggregate withGitHub verbose2 B2 repos w in
  let os := outcomes withGitHub repos (client w) in
  run1.1 = run2.1 ∧ client run1.2 = client run2.2
  ∧ run1.1 = Ok (mkAcc (sumCounts os) (failedIds repos os))
  ∧ stats run1.2 = stats w ∧ refreshing run1.2 = refreshing w.
Proof.
  intros H1 H2. cbv zeta.
  destruct (aggregate_run withGitHub verbose1 B1 repos w H1) as (J1 & -> & _).
  destruct (aggregate_run withGitHub verbose2 B2 repos w H2) as (J2 & -> & _).
  cbn [fst snd stats refreshing client]. by rewrite result_summary.
Qed.

(** X21.  The scoped updates commute: committing a total and running either
    realtime handler give the same view state in both orders, so do the two
    realtime handlers, and the two realtime handlers together write what the
    count update of [fetchStats] writes. *)
Theorem scoped_updates_commute acc sb (w : World Σ) :
  stats (onJobsChange sb (report acc w).2).2 = stats (report acc (onJobsChange sb w).2).2
  ∧ stats (onRepositoriesChange sb (report acc w).2).2
    = stats (report acc (onRepositoriesChange sb w).2).2
  ∧ stats (onJobsChange sb (onRepositoriesChange sb w).2).2
    = stats (onRepositoriesChange sb (onJobsChange sb w).2).2
  ∧ stats (onJobsChange sb (onRepositoriesChange sb w).2).2
    = withCounts (count (trackedQuery sb)) (count (analyzedQuery sb))
                 (count (automationsQuery sb)) (stats w).
Proof. rewrite !report_eq. done. Qed.

(** X22.  The one difference between the two copies of the loop, for runs
    whose queries succeed:
    [refreshStats.openIssues] logs the error of every failed item, in list
    order and one entry per failed identifier, and [fetchStats] logs none. *)
Theorem failures_logged_on_refresh_only sb repos (w : World Σ) :
  healthy sb → data (repositoriesQuery sb) = Some repos →
  let os := outcomes withGitHub repos (client w) in
  logged (since w (refreshOpenIssues withGitHub sb w).2) = errorsOf os
  ∧ logged (since w (fetchStats withGitHub None sb w).2) = []
  ∧ length (errorsOf os) = length (failedRepos (result withGitHub repos (client w))).
Proof.
  intros [Hc Hd]%healthy_split Hdata. cbv zeta.
  destruct (refreshOpenIssues_loop sb repos w Hd Hdata) as (J & -> & _ & _ & _ & HL & _).
  destruct (fetchStats_loop None sb repos w Hc Hd Hdata eq_refl)
    as (J' & -> & _ & _ & _ & HL' & _).
  cbn [aliveAt snd journal].
  erewrite !since_app by reflexivity.
  split_and!.
  - change (?x :: J ++ ?y :: ?l ++ [?z]) with ([x] ++ J ++ [y] ++ l ++ [z]).
    rewrite !logged_app, HL. unfold warning. case_bool_decide; cbn; by rewrite app_nil_r.
  - change (?x :: J' ++ ?y :: ?l) with ([x] ++ J' ++ [y] ++ l).
    rewrite !logged_app, HL'. unfold warning. by case_bool_decide.
  - rewrite result_summary. cbn [failedRepos].
    pose proof (outcomes_length withGitHub repos (client w)) as Hlen.
    clear HL HL'. revert Hlen.
    generalize (outcomes withGitHub repos (client w)). clear.
    induction repos as [|r repos IH]; intros [|o os] Hlen; simplify_eq/=; [done|].
    unfold errorsOf, failedIds in *. cbn. destruct o as [e|?]; cbn; by rewrite IH.
Qed.

(** X23.  The realtime handlers do not look at the error of their queries: a
    failed query (an error and a [null] count) silently sets the count to 0, where the
    refresh handler of the same card keeps the old value. *)
Theorem realtime_zeroes_on_error card sb (w : World Σ) e :
  countError (countQueryOf card sb) = Some e →
  count (countQueryOf card sb) = None →
  let w' := (realtimeHandler card sb w).2 in
  countField card (stats w') = 0
  ∧ toasts (since w w') = [] ∧ logged (since w w') = []
  ∧ countField card (stats (countHandler card sb w).2) = countField card (stats w).
Proof.
  intros He Hn. cbv zeta.
  destruct (countHandler_fail card sb w e He) as (label & ->).
  destruct card; cbn in *; rewrite Hn; unfold since; cbn;
    by rewrite drop_app_length.
Qed.

(** *** The slices of the loop *)

Lemma concat_slices B (repos : list Repo) n :
  concat ((λ k, slice repos (k * B) (k * B + B)) <$> seq 0 n) = take (n * B) repos.
Proof.
  induction n as [|n IH]; [done|].
  rewrite seq_S, fmap_app, concat_app, IH. cbn [fmap list_fmap concat].
  rewrite app_nil_r. unfold slice.
  replace (0 + n)%nat with n by lia.
  replace (n * B + B - n * B)%nat with B by lia.
  rewrite take_take_drop. f_equal. lia.
Qed.

Lemma below_ceilDiv n b k :
  (0 < b)%nat → (k < ceilDiv n b)%nat → (k * b < n)%nat.
Proof.
  intros Hb Hk. destruct (ceilDiv_bounds n b Hb) as [_ H].
  assert (S k * b ≤ ceilDiv n b * b)%nat as Hle by (apply Nat.mul_le_mono_r; lia).
  rewrite Nat.mul_succ_l in Hle. lia.
Qed.

(** X24.  For every positive batch size the slices the loop takes partition
    the list: they are the
    consecutive ranges of the batch size, their concatenation is the list of
    repositories, and each of them is non-empty and no longer than the batch
    size. *)
Theorem batches_partition verbose B repos (w : World Σ) :
  (0 < B)%nat →
  let bs := lefts (pacing (since w (aggregate withGitHub verbose B repos w).2)) in
  bs = batches B (length repos)
  ∧ concat ((λ b, slice repos b.1 b.2) <$> bs) = repos
  ∧ Forall (λ b, (0 < length (slice repos b.1 b.2) ≤ B)%nat) bs.
Proof.
  intros HB. cbv zeta.
  destruct (aggregate_run withGitHub verbose B repos w HB) as (J & -> & Hp & _).
  cbn [snd]. erewrite since_app by reflexivity.
  rewrite Hp, expectedPacing_inl, lefts_intersperse.
  change (λ k : nat, ((0 + k * B)%nat, (0 + k * B + B)%nat))
    with (λ k : nat, ((k * B)%nat, (k * B + B)%nat)).
  fold (batches B (length repos)). unfold batches.
  split; [done|]. split.
  - rewrite <-list_fmap_compose.
    rewrite (list_fmap_ext _ (λ k, slice repos (k * B) (k * B + B)) (seq 0 _) )
      by done.
    rewrite concat_slices. apply take_ge.
    destruct (ceilDiv_bounds (length repos) B HB). lia.
  - apply Forall_fmap, Forall_forall. intros k Hk%elem_of_seq.
    cbn [fst snd compose]. unfold compose. cbn [fst snd]. rewrite slice_length.
    pose proof (below_ceilDiv (length repos) B k HB ltac:(lia)). lia.
Qed.

(** *** The stat cards *)

Lemma flags_warning t acc : flags (warning t acc) = [].
Proof. unfold warning. by case_bool_decide. Qed.

Lemma refreshOpenIssues_toggles sb (w : World Σ) :
  toggles "openIssues" (refreshOpenIssues withGitHub sb) w.
Proof.
  unfold toggles. cbv zeta.
  destruct (dataError (repositoriesQuery sb)) as [e|] eqn:Hd.
  { rewrite (refreshOpenIssues_error sb w e Hd). cbn [snd refreshing].
    split; [by rewrite insert_insert_eq|].
    erewrite since_app by reflexivity.
    by exists [(S (clock w), ConsoleError "Error refreshing open issues:" e);
               (S (clock w), ShowToast refreshErrorToast)], (S (clock w)). }
  destruct (data (repositoriesQuery sb)) as [repos|] eqn:Hdata.
  - destruct (refreshOpenIssues_loop sb repos w Hd Hdata)
      as (J & -> & _ & _ & _ & _ & HF).
    cbn [snd refreshing]. split; [by rewrite insert_insert_eq|].
    erewrite since_app by reflexivity.
    eexists (J ++ _ :: warning _ _), _. split.
    + by rewrite <-app_assoc.
    + change (J ++ ?y :: ?l) with (J ++ [y] ++ l).
      by rewrite !flags_app, HF, flags_warning.
  - rewrite (refreshOpenIssues_null sb w Hd Hdata). cbn [snd refreshing].
    split; [by rewrite insert_insert_eq|].
    erewrite since_app by reflexivity. by exists [], (S (clock w)).
Qed.

Lemma countHandler_toggles card sb (w : World Σ) :
  toggles (countKey card) (countHandler card sb) w.
Proof.
  unfold toggles. cbv zeta.
  destruct (countError (countQueryOf card sb)) as [e|] eqn:Hq.
  - destruct (countHandler_fail card sb w e Hq) as (label & ->).
    cbn [snd refreshing]. split; [by rewrite insert_insert_eq|].
    erewrite since_app by reflexivity.
    by exists [(S (clock w), ConsoleError label e);
               (S (clock w), ShowToast (countErrorToast card))], (S (clock w)).
  - rewrite (countHandler_ok card sb w Hq).
    cbn [snd refreshing]. split; [by rewrite insert_insert_eq|].
    erewrite since_app by reflexivity.
    by eexists [(S (clock w), SetStats _)], (S (clock w)).
Qed.

(** X25.  The refresh handler of every stat card raises the flag of its own
    card before anything else and lowers it after everything else, on every
    path, and touches no other flag. *)
Theorem refresh_toggles_own_flag sb (w0 w : World Σ) :
  Forall (λ c, toggles (cardKey c) (onRefresh c) w) (statCards withGitHub sb w0).
Proof.
  unfold statCards. repeat apply Forall_cons_2; [..|apply Forall_nil_2].
  all: cbn [onRefresh cardKey].
  - apply refreshOpenIssues_toggles.
  - apply (countHandler_toggles TrackedRepos).
  - apply (countHandler_toggles AnalyzedRepos).
  - apply (countHandler_toggles ActiveAutomations).
Qed.

Lemma shown_statCards key sb (w : World Σ) :
  shown key (statCards withGitHub sb w) =
  if decide ("openIssues"%string = key)
  then Some (pretty (openIssues (stats w)), refreshing w !! "openIssues"%string)
  else if decide ("trackedRepos"%string = key)
  then Some (pretty (trackedRepos (stats w)), refreshing w !! "trackedRepos"%string)
  else if decide ("analyzedRepos"%string = key)
  then Some (pretty (analyzedRepos (stats w)), refreshing w !! "analyzedRepos"%string)
  else if decide ("activeAutomations"%string = key)
  then Some (pretty (activeAutomations (stats w)),
             refreshing w !! "activeAutomations"%string)
  else None.
Proof.
  unfold shown, statCards. cbn [list_find cardKey].
  repeat (case_decide; [done|]). done.
Qed.

Lemma refreshOpenIssues_fields sb (w : World Σ) :
  let w' := (refreshOpenIssues withGitHub sb w).2 in
  trackedRepos (stats w') = trackedRepos (stats w)
  ∧ analyzedRepos (stats w') = analyzedRepos (stats w)
  ∧ activeAutomations (stats w') = activeAutomations (stats w).
Proof.
  cbv zeta. destruct (dataError (repositoriesQuery sb)) as [e|] eqn:Hd.
  { by rewrite (refreshOpenIssues_error sb w e Hd). }
  destruct (data (repositoriesQuery sb)) as [repos|] eqn:Hdata.
  - by destruct (refreshOpenIssues_loop sb repos w Hd Hdata) as (J & -> & _).
  - by rewrite (refreshOpenIssues_null sb w Hd Hdata).
Qed.

Lemma countHandler_fields card sb (w : World Σ) :
  let w' := (countHandler card sb w).2 in
  openIssues (stats w') = openIssues (stats w)
  ∧ ∀ other, other ≠ card → countField other (stats w') = countField other (stats w).
Proof.
  cbv zeta. destruct (countError (countQueryOf card sb)) as [e|] eqn:Hq.
  - by destruct (countHandler_fail card sb w e Hq) as (label & ->).
  - rewrite (countHandler_ok card sb w Hq). cbn [snd stats].
    split; [by destruct card|]. intros other Ho. by destruct card, other.
Qed.

(** X26.  Pressing the refresh button of one stat card changes neither the
    value nor the spinner of any other card. *)
Theorem refresh_leaves_other_cards sb (w0 w : World Σ) i c key :
  statCards withGitHub sb w0 !! i = Some c → key ≠ cardKey c →
  shown key (statCards withGitHub sb (onRefresh c w).2)
  = shown key (statCards withGitHub sb w).
Proof.
  intros Hi Hkey. rewrite !shown_statCards.
  destruct i as [|[|[|[|i]]]]; simplify_eq/=.
  - destruct (refreshOpenIssues_toggles sb w) as [Hr _].
    destruct (refreshOpenIssues_fields sb w) as (H1 & H2 & H3).
    cbv zeta in *. rewrite Hr, H1, H2, H3.
    repeat case_decide; subst; try done; by rewrite lookup_insert_ne.
  - destruct (countHandler_toggles TrackedRepos sb w) as [Hr _].
    destruct (countHandler_fields TrackedRepos sb w) as (H1 & H2).
    pose proof (H2 AnalyzedRepos ltac:(done)) as H3.
    pose proof (H2 ActiveAutomations ltac:(done)) as H4.
    cbv zeta in *. cbn [countHandler countKey countField] in *. rewrite Hr, H1, H3, H4.
    repeat case_decide; subst; try done; by rewrite lookup_insert_ne.
  - destruct (countHandler_toggles AnalyzedRepos sb w) as [Hr _].
    destruct (countHandler_fields AnalyzedRepos sb w) as (H1 & H2).
    pose proof (H2 TrackedRepos ltac:(done)) as H3.
    pose proof (H2 ActiveAutomations ltac:(done)) as H4.
    cbv zeta in *. cbn [countHandler countKey countField] in *. rewrite Hr, H1, H3, H4.
    repeat case_decide; subst; try done; by rewrite lookup_insert_ne.
  - destruct (countHandler_toggles ActiveAutomations sb w) as [Hr _].
    destruct (countHandler_fields ActiveAutomations sb w) as (H1 & H2).
    pose proof (H2 TrackedRepos ltac:(done)) as H3.
    pose proof (H2 AnalyzedRepos ltac:(done)) as H4.
    cbv zeta in *. cbn [countHandler countKey countField] in *. rewrite Hr, H1, H3, H4.
    repeat case_decide; subst; try done; by rewrite lookup_insert_ne.
Qed.
End Runs.

(** *** The properties at example runs *)

Lemma fetchStats_count_query_fails_witness :
  let w := Scripted.world0 Examples.allSucceed in
  let w' := (fetchStats Scripted.withGitHub None MoreExamples.sbCountFails w).2 in
  stats w' = stats w ∧ refreshing w' = refreshing w ∧ client w' = client w
  ∧ select isCommit (since w w') = [] ∧ pacing (since w w') = []
  ∧ logged (since w w') = [OtherError "permission denied"]
  ∧ (aliveAt None (clock w + 3) = true → toasts (since w w') = [loadErrorToast])
  ∧ (aliveAt None (clock w + 1) = false → toasts (since w w') = []).
Proof.
  apply (fetchStats_count_query_fails Scripted.withGitHub None MoreExamples.sbCountFails
           (Scripted.world0 Examples.allSucceed) (OtherError "permission denied")).
  reflexivity.
Defined.

Lemma fetchStats_list_query_fails_witness :
  let w := MoreExamples.usedWorld Examples.allSucceed in
  let w' := (fetchStats Scripted.withGitHub None MoreExamples.sbListFails w).2 in
  stats w' = mkStats 7 3 2 1
  ∧ openIssues (stats w') = openIssues (stats w)
  ∧ client w' = client w ∧ pacing (since w w') = []
  ∧ select isCommit (since w w') = [SetStats (stats w')]
  ∧ logged (since w w') = [OtherError "permission denied"]
  ∧ toasts (since w w') = [loadErrorToast].
Proof.
  apply (fetchStats_list_query_fails Scripted.withGitHub None MoreExamples.sbListFails
           (MoreExamples.usedWorld Examples.allSucceed) (OtherError "permission denied")).
  - reflexivity.
  - reflexivity.
  - reflexivity.
Defined.

Lemma fetchStats_null_or_empty_witness :
  let w := MoreExamples.usedWorld Examples.allSucceed in
  openIssues (stats (fetchStats Scripted.withGitHub None MoreExamples.sbNull w).2) = 7
  ∧ openIssues (stats (fetchStats Scripted.withGitHub None MoreExamples.sbEmpty w).2) = 0.
Proof.
  split.
  - apply (fetchStats_null_or_empty Scripted.withGitHub MoreExamples.sbNull
             (MoreExamples.usedWorld Examples.allSucceed)).
    + repeat split; reflexivity.
    + left. reflexivity.
  - apply (fetchStats_null_or_empty Scripted.withGitHub MoreExamples.sbEmpty
             (MoreExamples.usedWorld Examples.allSucceed)).
    + repeat split; reflexivity.
    + right. reflexivity.
Defined.

Lemma fetchStats_torn_down_before_loop_witness :
  let w := Scripted.world0 Examples.allSucceed in
  let w' := (fetchStats Scripted.withGitHub (Some 2%nat) Examples.sb3 w).2 in
  client w' = client w ∧ pacing (since w w') = []
  ∧ openIssues (stats w') = openIssues (stats w)
  ∧ toasts (since w w') = [] ∧ logged (since w w') = [].
Proof.
  apply (fetchStats_torn_down_before_loop Scripted.withGitHub (Some 2%nat) Examples.sb3
           Examples.repos3 (Scripted.world0 Examples.allSucceed)).
  - repeat split; reflexivity.
  - reflexivity.
  - reflexivity.
Defined.

Lemma fetchStats_torn_down_during_loop_witness :
  let w := Scripted.world0 Examples.twoFailures in
  let w' := (fetchStats Scripted.withGitHub (Some 6%nat) Examples.sb3 w).2 in
  client w' = clientAfter Scripted.withGitHub Examples.repos3 (client w)
  ∧ pacing (since w w') = expectedPacing 2 3 0
  ∧ clock w' = 8%nat
  ∧ openIssues (stats w') = openIssues (stats w)
  ∧ select isCommit (since w w') = [SetStats (mkStats 0 3 2 0)]
  ∧ toasts (since w w') = [] ∧ logged (since w w') = [].
Proof.
  apply (fetchStats_torn_down_during_loop Scripted.withGitHub (Some 6%nat) Examples.sb3
           Examples.repos3 (Scripted.world0 Examples.twoFailures)).
  - repeat split; reflexivity.
  - reflexivity.
  - reflexivity.
  - reflexivity.
Defined.

Lemma refreshOpenIssues_list_query_fails_witness :
  let w := MoreExamples.usedWorld Examples.allSucceed in
  let w' := (refreshOpenIssues Scripted.withGitHub MoreExamples.sbListFails w).2 in
  stats w' = stats w ∧ client w' = client w
  ∧ toasts (since w w') = [refreshErrorToast]
  ∧ logged (since w w') = [OtherError "permission denied"]
  ∧ pacing (since w w') = [] ∧ select isCommit (since w w') = []
  ∧ refreshing w' !! "openIssues"%string = Some false.
Proof.
  apply (refreshOpenIssues_list_query_fails Scripted.withGitHub MoreExamples.sbListFails
           (MoreExamples.usedWorld Examples.allSucceed) (OtherError "permission denied")).
  reflexivity.
Defined.

Lemma aggregate_independent_of_batch_size_witness :
  let w := Scripted.world0 Examples.transientFailure in
  let run1 := aggregate Scripted.withGitHub false 2 Examples.repos3 w in
  let run2 := aggregate Scripted.withGitHub true 3 Examples.repos3 w in
  let os := outcomes Scripted.withGitHub Examples.repos3 (client w) in
  run1.1 = run2.1 ∧ client run1.2 = client run2.2
  ∧ run1.1 = Ok (mkAcc (sumCounts os) (failedIds Examples.repos3 os))
  ∧ stats run1.2 = stats w ∧ refreshing run1.2 = refreshing w.
Proof.
  apply (aggregate_independent_of_batch_size Scripted.withGitHub false true 2 3
           Examples.repos3 (Scripted.world0 Examples.transientFailure)).
  - lia.
  - lia.
Defined.

Lemma failures_logged_on_refresh_only_witness :
  let w := Scripted.world0 Examples.twoFailures in
  let os := outcomes Scripted.withGitHub Examples.repos3 (client w) in
  logged (since w (refreshOpenIssues Scripted.withGitHub Examples.sb3 w).2) = errorsOf os
  ∧ logged (since w (fetchStats Scripted.withGitHub None Examples.sb3 w).2) = []
  ∧ length (errorsOf os)
    = length (failedRepos (result Scripted.withGitHub Examples.repos3 (client w))).
Proof.
  apply (failures_logged_on_refresh_only Scripted.withGitHub Examples.sb3 Examples.repos3
           (Scripted.world0 Examples.twoFailures)).
  - repeat split; reflexivity.
  - reflexivity.
Defined.

Lemma realtime_zeroes_on_error_witness :
  let w := MoreExamples.usedWorld Examples.allSucceed in
  let w' := (realtimeHandler AnalyzedRepos MoreExamples.sbCountFails w).2 in
  countField AnalyzedRepos (stats w') = 0
  ∧ toasts (since w w') = [] ∧ logged (since w w') = []
  ∧ countField AnalyzedRepos
      (stats (countHandler AnalyzedRepos MoreExamples.sbCountFails w).2)
    = countField AnalyzedRepos (stats w).
Proof.
  apply (realtime_zeroes_on_error AnalyzedRepos MoreExamples.sbCountFails
           (MoreExamples.usedWorld Examples.allSucceed) (OtherError "permission denied")).
  - reflexivity.
  - reflexivity.
Defined.

Lemma batches_partition_witness :
  let w := Scripted.world0 Examples.allSucceed in
  let bs := lefts (pacing (since w (aggregate Scripted.withGitHub false 2
                                      Examples.repos3 w).2)) in
  bs = batches 2 3
  ∧ concat ((λ b, slice Examples.repos3 b.1 b.2) <$> bs) = Examples.repos3
  ∧ Forall (λ b, (0 < length (slice Examples.repos3 b.1 b.2) ≤ 2)%nat) bs.
Proof.
  apply (batches_partition Scripted.withGitHub false 2 Examples.repos3
           (Scripted.world0 Examples.allSucceed)).
  lia.
Defined.

Lemma refresh_leaves_other_cards_witness :
  let w := MoreExamples.usedWorld Examples.allSucceed in
  ∃ c, statCards Scripted.withGitHub Examples.sb3 w !! 1%nat = Some c
       ∧ shown "openIssues" (statCards Scripted.withGitHub Examples.sb3 (onRefresh c w).2)
         = shown "openIssues" (statCards Scripted.withGitHub Examples.sb3 w).
Proof.
  eexists. split; [reflexivity|].
  apply (refresh_leaves_other_cards Scripted.withGitHub Examples.sb3
           (MoreExamples.usedWorld Examples.allSucceed)
           (MoreExamples.usedWorld Examples.allSucceed) 1%nat _ "openIssues"%string).
  - reflexivity.
  - intros [=].
Defined.
End DashboardProperties.
